(** * VisualEditor: rendering of annotated text (ve.ce.TextNode)

    A shallow embedding of [ve.ce.TextNode.renderAnnotation] and
    [ve.ce.TextNode.prototype.getHtml] together with the two static tables
    [annotationRenderers] and [htmlCharacters], and the properties of the
    renderer that follow from the code.

    Modelling conventions.
    - A JavaScript object used as a map (the two tables, an annotation's
      [data]) is a [gmap] with string keys, its own properties.  The [in]
      operator and a property read also find what the object inherits from
      [Object.prototype]: for [annotationRenderers], whose keys are the
      types of annotations and can be any string, the inherited members
      are modelled ([ObjectPrototype], [member]); for [htmlCharacters] the
      keys are the characters of the units, one-character strings, and no
      name of an inherited member is one character long.
    - An annotation is a JavaScript object, compared with [===], that is by
      reference.  References are numbers and the objects live in a store
      [heap]; rendering never writes to it.
    - [throw] is the [Throw] constructor of [Result]; a property access on
      [undefined] is [Throw TypeError].
    - The string [out] that the code grows with [+=] is kept as the list of
      the appended pieces, each labelled with the statement that appended
      it; [getHtml] returns the concatenation of the pieces. *)

From stdpp Require Import gmap strings list.

#[local] Open Scope string_scope.
#[local] Open Scope list_scope.

(** ** Values *)

(** Reference to an annotation object. *)
Definition ref := nat.

(** An annotation object: [{ type: ..., data: { ... } }]. *)
Record Annotation := {
  type : string;
  data : gmap string string
}.

(** What [+] makes of a property read that may be [undefined]. *)
Definition js_string (v : option string) : string :=
  default "undefined" v.

(** The [open] or [close] member of a renderer: a string, or a function of
    the annotation's data. *)
Inductive Markup :=
  | Literal (s : string)
  | Computed (f : gmap string string → string).

Record RenderRule := {
  open : Markup;
  close : Markup
}.

(** [typeof m === 'function' ? m( data ) : m] *)
Definition markup (m : Markup) (d : gmap string string) : string :=
  match m with
  | Literal s => s
  | Computed f => f d
  end.

Definition dquote : string := String (Ascii.ascii_of_nat 34) EmptyString.
Definition newline : string := String (Ascii.ascii_of_nat 10) EmptyString.
Definition tab : string := String (Ascii.ascii_of_nat 9) EmptyString.

Definition span (class : string) : string :=
  "<span class=" +:+ dquote +:+ class +:+ dquote +:+ ">".

(** ** Static members *)

(** [ve.ce.TextNode.annotationRenderers] *)
Definition annotationRenderers : gmap string RenderRule :=
  list_to_map [
    ("object/template",
      {| open := Computed (λ data,
           span "ve-ce-content-format-object" +:+ js_string (data !! "html"));
         close := Literal "</span>" |});
    ("object/hook",
      {| open := Computed (λ data,
           span "ve-ce-content-format-object" +:+ js_string (data !! "html"));
         close := Literal "</span>" |});
    ("textStyle/bold",
      {| open := Literal "<b>"; close := Literal "</b>" |});
    ("textStyle/italic",
      {| open := Literal "<i>"; close := Literal "</i>" |});
    ("textStyle/strong",
      {| open := Literal (span "ve-ce-content-format-textStyle-strong");
         close := Literal "</span>" |});
    ("textStyle/emphasize",
      {| open := Literal (span "ve-ce-content-format-textStyle-emphasize");
         close := Literal "</span>" |});
    ("textStyle/big",
      {| open := Literal (span "ve-ce-content-format-textStyle-big");
         close := Literal "</span>" |});
    ("textStyle/small",
      {| open := Literal (span "ve-ce-content-format-textStyle-small");
         close := Literal "</span>" |});
    ("textStyle/superScript",
      {| open := Literal (span "ve-ce-content-format-textStyle-superScript");
         close := Literal "</span>" |});
    ("textStyle/subScript",
      {| open := Literal (span "ve-ce-content-format-textStyle-subScript");
         close := Literal "</span>" |});
    ("link/external",
      {| open := Computed (λ data,
           "<span class=" +:+ dquote +:+ "ve-ce-content-format-link" +:+ dquote
           +:+ " data-href=" +:+ dquote +:+ js_string (data !! "href")
           +:+ dquote +:+ ">");
         close := Literal "</span>" |});
    ("link/internal",
      {| open := Computed (λ data,
           "<span class=" +:+ dquote +:+ "ve-ce-content-format-link" +:+ dquote
           +:+ " data-title=" +:+ dquote +:+ "wiki/"
           +:+ js_string (data !! "title") +:+ dquote +:+ ">");
         close := Literal "</span>" |})
  ].

(** [ve.ce.TextNode.htmlCharacters] *)
Definition htmlCharacters : gmap string string :=
  list_to_map [
    ("&", "&amp;");
    ("<", "&lt;");
    (">", "&gt;");
    ("'", "&#039;");
    (dquote, "&quot;");
    (newline, span "ve-ce-content-whitespace" +:+ "&#182;</span>");
    (tab, span "ve-ce-content-whitespace" +:+ "&#8702;</span>")
  ].

(** [chr in htmlChars ? htmlChars[chr] : chr] *)
Definition escape (chr : string) : string :=
  match htmlCharacters !! chr with
  | Some entity => entity
  | None => chr
  end.

(** ** What an object literal inherits *)

(** The names of the members of [Object.prototype], which both tables
    inherit: those of the language and the legacy accessors of browsers.
    They are functions, and for [__proto__] the prototype itself; none has
    an [open] or a [close] member. *)
Definition ObjectPrototype : list string :=
  ["constructor"; "toString"; "toLocaleString"; "valueOf";
   "hasOwnProperty"; "isPrototypeOf"; "propertyIsEnumerable";
   "__defineGetter__"; "__defineSetter__"; "__lookupGetter__";
   "__lookupSetter__"; "__proto__"].

(** What [renderers[type]] is when it is not [undefined]: an entry of the
    table, or a member inherited from [Object.prototype]. *)
Inductive Member :=
  | Own (rule : RenderRule)
  | Inherited.

(** [renderers[type]], [None] for [undefined]; [type in renderers] is the
    test that it is [Some]. *)
Definition member (renderers : gmap string RenderRule) (type : string)
    : option Member :=
  match renderers !! type with
  | Some rule => Some (Own rule)
  | None => if decide (type ∈ ObjectPrototype) then Some Inherited else None
  end.

(** [typeof m.open === 'function' ? m.open( data ) : m.open], likewise for
    [close], as [+=] appends it: an inherited member has no such member and
    [undefined] is appended. *)
Definition memberMarkup (side : RenderRule → Markup) (m : Member)
    (d : gmap string string) : string :=
  match m with
  | Own rule => markup (side rule) d
  | Inherited => js_string None
  end.

(** ** Results of a call *)

Inductive Thrown :=
  | ThrownString (message : string)
  | TypeError.

Inductive Result (A : Type) :=
  | Return (value : A)
  | Throw (e : Thrown).
Arguments Return {A} value.
Arguments Throw {A} e.

#[global] Instance Result_ret : MRet Result := λ A x, Return x.
#[global] Instance Result_bind : MBind Result := λ A B f m,
  match m with
  | Return x => f x
  | Throw e => Throw e
  end.

Definition InvalidStackError : Thrown :=
  ThrownString "Invalid stack error. An element is missing from the stack.".

(** ** Arrays of references *)

Fixpoint inArray_from (i : Z) (value : ref) (array : list ref) : Z :=
  match array with
  | [] => (-1)%Z
  | x :: rest =>
      if decide (x = value) then i else inArray_from (i + 1)%Z value rest
  end.

(** Modelled from the spec: [ve.inArray] is not among the sources; it is the
    membership test by identity of the specification, returning as the code
    expects of it the index of the first element identical to [value] and
    [-1] when there is none. *)
Definition inArray (value : ref) (array : list ref) : Z :=
  inArray_from 0%Z value array.

(** ** Pieces of output *)

(** The statement of [renderAnnotation] or [getHtml] that appended a piece:
    - [Open a]: the open markup of [a], appended when [a] is pushed;
    - [Close a]: the close markup of [a], appended when [a] leaves the stack
      (popped from the top or spliced out of the middle);
    - [Suspend a]: the close markup of [a], appended because [a] lies above
      a buried annotation that is being closed;
    - [Resume a]: the open markup of [a], appended after that;
    - [Text]: the rendering of a character. *)
Inductive Origin :=
  | Open (a : ref)
  | Close (a : ref)
  | Suspend (a : ref)
  | Resume (a : ref)
  | Text.

#[global] Instance Origin_eq_dec : EqDecision Origin.
Proof. solve_decision. Defined.

Definition Piece : Type := Origin * string.

(** The string the pieces add up to. *)
Definition flatten (pieces : list Piece) : string :=
  foldr (λ p s, p.2 +:+ s) EmptyString pieces.

(** ** Content *)

(** An element of the data of a text node: a character [chr], or an array
    [[chr, annotation, ...]] whose first element is the character.  Only
    the test against [-1] of a search in such an array is used and a
    reference is never identical to the character, so the searches are made
    in [annotations]. *)
Inductive Unit :=
  | Plain (chr : string)
  | Formatted (chr : string) (annotations : list ref).

(** [rightPlain ? right : right[0]] *)
Definition chr_of (u : Unit) : string :=
  match u with
  | Plain chr => chr
  | Formatted chr _ => chr
  end.

(** The elements [1 .. length - 1] of an array; a character has none. *)
Definition annotations_of (u : Unit) : list ref :=
  match u with
  | Plain _ => []
  | Formatted _ annotations => annotations
  end.

(** The fields of a range that [getHtml] names. *)
Record Range := {
  start : Z;
  end_ : option Z
}.

(** ** The local variables of a pass and the monad that threads them *)

Record Locals := {
  out : list Piece;
  stack : list ref
}.

Definition Pass (A : Type) : Type := Locals → Result (A * Locals).

#[global] Instance Pass_ret : MRet Pass := λ A x s, Return (x, s).
#[global] Instance Pass_bind : MBind Pass := λ A B f m s,
  match m s with
  | Return (x, s') => f x s'
  | Throw e => Throw e
  end.

(** [for ( j = 1; j < array.length; j++ ) body( array[j] )] *)
Fixpoint forEach (body : ref → Pass unit) (l : list ref) : Pass unit :=
  match l with
  | [] => mret tt
  | a :: l' => body a ;; forEach body l'
  end.

(** ** The requests of a pass, in the words of the specification *)

Inductive Step :=
  | Request (bias : string) (a : ref)
  | Character (chr : string).

(** Between two consecutive units: a close request for each annotation of
    the previous unit that the current one lacks, in the order of the
    previous unit, then an open request for each annotation of the current
    unit that the previous one lacks, in the order of the current unit.  A
    character has no annotations. *)
Definition difference (left right : Unit) : list Step :=
  map (Request "close")
      (filter (.∉ annotations_of right) (annotations_of left))
  ++ map (Request "open")
         (filter (.∉ annotations_of left) (annotations_of right)).

Fixpoint script (left : Unit) (data : list Unit) : list Step :=
  match data with
  | [] => []
  | unit :: rest =>
      difference left unit ++ Character (chr_of unit) :: script unit rest
  end.

(** The close requests after the last unit. *)
Definition closing (right : option Unit) : list Step :=
  match right with
  | Some unit => map (Request "close") (annotations_of unit)
  | None => []
  end.

Definition program (data : list Unit) : list Step :=
  script (Plain EmptyString) data ++ closing (last data).

(** ** Nesting of the pieces *)

(** Reads the origins of the pieces as brackets, from the tags that are
    open before them: an open or resumed tag becomes the innermost one, a
    closed or suspended tag has to be the innermost one.  The result is the
    tags left open. *)
Fixpoint nest (tags : list ref) (pieces : list Piece) : option (list ref) :=
  match pieces with
  | [] => Some tags
  | (Open a, _) :: rest | (Resume a, _) :: rest => nest (tags ++ [a]) rest
  | (Close a, _) :: rest | (Suspend a, _) :: rest =>
      if decide (last tags = Some a) then nest (removelast tags) rest
      else None
  | (Text, _) :: rest => nest tags rest
  end.

Definition count_origin (o : Origin) (pieces : list Piece) : nat :=
  length (filter (λ p, p.1 = o) pieces).

(** The pushes and removals of [a] on the stack, and the open and close
    markup of [a] in the output. *)
Definition pushes (a : ref) (pieces : list Piece) : nat :=
  count_origin (Open a) pieces.
Definition removals (a : ref) (pieces : list Piece) : nat :=
  count_origin (Close a) pieces.
Definition opens (a : ref) (pieces : list Piece) : nat :=
  (count_origin (Open a) pieces + count_origin (Resume a) pieces)%nat.
Definition closes (a : ref) (pieces : list Piece) : nat :=
  (count_origin (Close a) pieces + count_origin (Suspend a) pieces)%nat.

(** The statements that appended the pieces, without the strings. *)
Definition origins (pieces : list Piece) : list Origin :=
  map fst pieces.

(** The pieces of text among the pieces of the output. *)
Definition texts (pieces : list Piece) : list Piece :=
  filter (λ p, p.1 = Text) pieces.

(** The characters that a sequence of steps renders. *)
Definition characters (steps : list Step) : list string :=
  omap (λ step, match step with
                | Character chr => Some chr
                | Request _ _ => None
                end) steps.

(** How many times [a] is on a stack. *)
Definition occurrences (a : ref) (l : list ref) : nat :=
  length (filter (.= a) l).

(** A unit with the annotation [a] taken off. *)
Definition without (a : ref) (unit : Unit) : Unit :=
  match unit with
  | Plain chr => Plain chr
  | Formatted chr annotations => Formatted chr (filter (.≠ a) annotations)
  end.

(** A unit that is an array holding a character and nothing else, as the
    character. *)
Definition bare (unit : Unit) : Unit :=
  match unit with
  | Formatted chr [] => Plain chr
  | _ => unit
  end.

(** The characters of a string. *)
Definition chars_of (s : string) : list Ascii.ascii :=
  String.list_ascii_of_string s.

(** The characters that delimit tags and attribute values:
    [<], [>], ['] and the double quote. *)
Definition delimiters : list Ascii.ascii :=
  map Ascii.ascii_of_nat [60; 62; 39; 34]%nat.

(** The names of the elements that the renderers use. *)
Definition elements : list string := ["b"; "i"; "span"].

(** No unit lists an annotation twice. *)
Definition distinct (data : list Unit) : Prop :=
  Forall (λ unit, NoDup (annotations_of unit)) data.

Section Renderer.

(** The value of [ve.ce.TextNode.annotationRenderers] when the call is
    made, and the annotation objects. *)
Variable renderers : gmap string RenderRule.
Variable heap : ref → Annotation.

(** [type in renderers], for the type of [a]: the type is the key of an
    entry of the table or the name of a member that the table inherits.
    Below, a registered annotation is one that this guard admits. *)
Definition registered (a : ref) : Prop :=
  is_Some (member renderers (type (heap a))).

(** [renderers[stack[i].type].close] or [.open], applied to
    [stack[i].data] when it is a function: [renderers[...]] is read without
    a test. *)
Definition rendered (side : RenderRule → Markup) (a : ref) : Result string :=
  match member renderers (type (heap a)) with
  | Some rule => Return (memberMarkup side rule (data (heap a)))
  | None => Throw TypeError
  end.

(** [ve.ce.TextNode.renderAnnotation]: the pieces appended to its [out],
    and the stack as the call leaves it. *)
Definition renderAnnotation (bias : string) (annotation : ref)
    (stack : list ref) : Result (list Piece * list ref) :=
  match member renderers (type (heap annotation)) with
  | Some rule =>
      if decide (bias = "open") then
        Return ([(Open annotation, memberMarkup open rule (data (heap annotation)))],
                stack ++ [annotation])
      else if decide (last stack = Some annotation) then
        Return ([(Close annotation, memberMarkup close rule (data (heap annotation)))],
                removelast stack)
      else
        let depth := inArray annotation stack in
        if decide (depth = (-1)%Z) then Throw InvalidStackError
        else
          let above := drop (Z.to_nat (depth + 1)) stack in
          closed ← mapM (λ a, s ← rendered close a; mret (Suspend a, s))
                        (reverse above);
          reopened ← mapM (λ a, s ← rendered open a; mret (Resume a, s))
                          above;
          Return (closed
                    ++ (Close annotation,
                        memberMarkup close rule (data (heap annotation)))
                    :: reopened,
                  delete (Z.to_nat depth) stack)
  | None => Return ([], stack)
  end.

(** [out += render( bias, a, stack )] *)
Definition render (bias : string) (a : ref) : Pass unit := λ s,
  '(pieces, stack') ← renderAnnotation bias a (stack s);
  mret (tt, {| out := out s ++ pieces; stack := stack' |}).

(** [out += chr in htmlChars ? htmlChars[chr] : chr] *)
Definition emit (chr : string) : Pass unit := λ s,
  Return (tt, {| out := out s ++ [(Text, escape chr)]; stack := stack s |}).

(** The three branches on [leftPlain] and [rightPlain] in the body of the
    loop. *)
Definition transition (left right : Unit) : Pass unit :=
  match left, right with
  | Formatted _ l, Plain _ =>
      forEach (render "close") l
  | Plain _, Formatted _ r =>
      forEach (render "open") r
  | Formatted _ l, Formatted _ r =>
      forEach (λ a, if decide (inArray a r = (-1)%Z)
                    then render "close" a else mret tt) l ;;
      forEach (λ a, if decide (inArray a l = (-1)%Z)
                    then render "open" a else mret tt) r
  | Plain _, Plain _ => mret tt
  end.

(** [for ( i = 0; i < data.length; i++ ) { ... left = right; }] *)
Fixpoint loop (left : Unit) (data : list Unit) : Pass unit :=
  match data with
  | [] => mret tt
  | unit :: rest =>
      let right := unit in
      transition left right ;;
      emit (chr_of right) ;;
      loop right rest
  end.

(** [if ( !rightPlain && right ) { ... }], where [right] is what the loop
    left in it: the last element of the data, or [undefined]. *)
Definition closeRemaining (right : option Unit) : Pass unit :=
  match right with
  | Some (Formatted _ r) => forEach (render "close") r
  | _ => mret tt
  end.

(** The body of [getHtml] from [var out = ''] to the last loop. *)
Definition pass (data : list Unit) : Result Locals :=
  '(_, s) ← (loop (Plain EmptyString) data ;; closeRemaining (last data))
            {| out := []; stack := [] |};
  mret s.

(** [ve.Range.prototype.normalize], which is not among the sources. *)
Variable normalize : Range → Range.

(** [ve.ce.TextNode.prototype.getHtml], on the data of the node. *)
Definition getHtml (range : option Range) (data : list Unit) : Result string :=
  let range :=
    match range with
    | Some range => normalize range
    | None => {| start := 0%Z; end_ := None |}
    end in
  s ← pass data;
  mret (flatten (out s)).

(** *** What the pieces are, for the statements below *)

(** The markup of [a] on one side; an annotation that the guard does not
    admit has none. *)
Definition markupOf (side : RenderRule → Markup) (a : ref) : string :=
  match member renderers (type (heap a)) with
  | Some rule => memberMarkup side rule (data (heap a))
  | None => EmptyString
  end.

Definition piece (origin : ref → Origin) (side : RenderRule → Markup)
    (a : ref) : Piece :=
  (origin a, markupOf side a).

(** The annotations of a list that the guard admits. *)
Definition live (l : list ref) : list ref :=
  filter registered l.

(** The stack holds the registered annotations of [unit], once each. *)
Definition carries (unit : Unit) (stack : list ref) : Prop :=
  NoDup stack ∧ ∀ x, x ∈ stack ↔ x ∈ annotations_of unit ∧ registered x.

(** *** The pass as a sequence of requests *)

Definition exec (step : Step) : Pass unit :=
  match step with
  | Request bias a => render bias a
  | Character chr => emit chr
  end.

Fixpoint run (steps : list Step) : Pass unit :=
  match steps with
  | [] => mret tt
  | step :: rest => exec step ;; run rest
  end.

(** *** The outcomes of a request that returns *)

Inductive rendering : string → ref → list ref → list Piece → list ref → Prop :=
  | rendering_skip bias a stack :
      member renderers (type (heap a)) = None →
      rendering bias a stack [] stack
  | rendering_open a stack :
      registered a →
      rendering "open" a stack [piece Open open a] (stack ++ [a])
  | rendering_close bias a below above :
      bias ≠ "open" →
      registered a →
      Forall registered above →
      rendering bias a (below ++ a :: above)
        (map (piece Suspend close) (reverse above)
           ++ piece Close close a :: map (piece Resume open) above)
        (below ++ above).

End Renderer.

Arguments registered renderers heap a /.

(** ** A small document *)

Module Sample.

Definition bold : Annotation :=
  {| type := "textStyle/bold"; data := ∅ |}.
Definition italic : Annotation :=
  {| type := "textStyle/italic"; data := ∅ |}.
Definition link : Annotation :=
  {| type := "link/external"; data := {[ "href" := "http://a.b" ]} |}.
Definition unknown : Annotation :=
  {| type := "textStyle/blink"; data := ∅ |}.
Definition constructor : Annotation :=
  {| type := "constructor"; data := ∅ |}.
Definition hasOwnProperty : Annotation :=
  {| type := "hasOwnProperty"; data := ∅ |}.

(** Objects 1 and 3 are two bold annotations with the same contents. *)
Definition heap (a : ref) : Annotation :=
  match a with
  | 1 => bold
  | 2 => italic
  | 3 => bold
  | 4 => link
  | 6 => constructor
  | 7 => hasOwnProperty
  | _ => unknown
  end.

Definition A : ref := 1.
Definition B : ref := 2.
Definition A' : ref := 3.
Definition L : ref := 4.
Definition U : ref := 5%nat.
Definition K : ref := 6.
Definition H : ref := 7.

Definition norm (r : Range) : Range := r.

(** The same annotations, the link with another target. *)
Definition heap' (a : ref) : Annotation :=
  match a with
  | 4 => {| type := "link/external"; data := {[ "href" := "http://c.d" ]} |}
  | _ => heap a
  end.

Definition html : list Unit → Result string :=
  getHtml annotationRenderers heap norm None.

End Sample.

(** * Properties *)

(** ** Searching an array *)

Lemma inArray_from_absent i value array :
  value ∉ array → inArray_from i value array = (-1)%Z.
Proof.
  revert i. induction array as [|x rest IH]; intros i Hnot; simpl; [done|].
  apply not_elem_of_cons in Hnot as [Hne Hrest].
  case_decide; [congruence|]. by apply IH.
Qed.

Lemma inArray_from_first i value before after :
  value ∉ before →
  inArray_from i value (before ++ value :: after)
  = (i + Z.of_nat (length before))%Z.
Proof.
  revert i. induction before as [|x rest IH]; intros i Hnot; simpl.
  - case_decide; [lia|done].
  - apply not_elem_of_cons in Hnot as [Hne Hrest].
    case_decide; [congruence|]. rewrite IH; [lia|done].
Qed.

Lemma inArray_absent value array :
  value ∉ array → inArray value array = (-1)%Z.
Proof. apply inArray_from_absent. Qed.

Lemma inArray_first value before after :
  value ∉ before →
  inArray value (before ++ value :: after) = Z.of_nat (length before).
Proof. intros H. unfold inArray. by rewrite inArray_from_first. Qed.

(** The search is a membership test by identity of references. *)
Lemma inArray_minus_one value array :
  inArray value array = (-1)%Z ↔ value ∉ array.
Proof.
  split; [|apply inArray_absent].
  intros Heq Hin. apply list_elem_of_split_l in Hin as (l1 & l2 & -> & Hnot).
  rewrite inArray_first in Heq; [lia|done].
Qed.

(** ** The monad *)

Lemma pass_bind_unfold {A B} (m : Pass A) (k : A → Pass B) s :
  (m ≫= k) s = match m s with
               | Return (x, s') => k x s'
               | Throw e => Throw e
               end.
Proof. reflexivity. Qed.

Lemma pass_bind_Return {A B} (m : Pass A) (k : A → Pass B) s x s' :
  m s = Return (x, s') → (m ≫= k) s = k x s'.
Proof. intros H. by rewrite pass_bind_unfold, H. Qed.

Lemma pass_bind_Throw {A B} (m : Pass A) (k : A → Pass B) s e :
  m s = Throw e → (m ≫= k) s = Throw e.
Proof. intros H. by rewrite pass_bind_unfold, H. Qed.

Lemma pass_bind_inv {A B} (m : Pass A) (k : A → Pass B) s y s'' :
  (m ≫= k) s = Return (y, s'') →
  ∃ x s', m s = Return (x, s') ∧ k x s' = Return (y, s'').
Proof.
  rewrite pass_bind_unfold. destruct (m s) as [[x s']|e]; [eauto|done].
Qed.

Lemma forEach_app body l1 l2 s :
  forEach body (l1 ++ l2) s = (forEach body l1 ;; forEach body l2) s.
Proof.
  revert s. induction l1 as [|a l1 IH]; intros s; simpl; [done|].
  rewrite !pass_bind_unfold. destruct (body a s) as [[[] s']|e]; [|done].
  rewrite IH. by rewrite pass_bind_unfold.
Qed.

Lemma forEach_ext body1 body2 l s :
  (∀ a s', a ∈ l → body1 a s' = body2 a s') →
  forEach body1 l s = forEach body2 l s.
Proof.
  revert s. induction l as [|a l IH]; intros s Hext; simpl; [done|].
  rewrite !pass_bind_unfold, Hext by left.
  destruct (body2 a s) as [[[] s']|e]; [|done].
  apply IH. intros b s'' Hb. apply Hext. by right.
Qed.

(** A loop whose body acts on some elements only is the loop over those
    elements. *)
Lemma forEach_filter (P : ref → Prop) `{!∀ a, Decision (P a)} body l s :
  forEach (λ a, if decide (P a) then body a else mret tt) l s
  = forEach body (filter P l) s.
Proof.
  revert s. induction l as [|a l IH]; intros s; simpl; [done|].
  rewrite filter_cons. destruct (decide (P a)); simpl.
  - rewrite !pass_bind_unfold. destruct (body a s) as [[[] s']|e]; [|done].
    apply IH.
  - rewrite pass_bind_unfold. simpl. apply IH.
Qed.

(** ** One request *)

Section RenderAnnotation.

Variable renderers : gmap string RenderRule.
Variable heap : ref → Annotation.

Lemma markupOf_lookup side a rule :
  member renderers (type (heap a)) = Some rule →
  markupOf renderers heap side a = memberMarkup side rule (data (heap a)).
Proof. intros H. unfold markupOf. by rewrite H. Qed.

Lemma piece_lookup origin side a rule :
  member renderers (type (heap a)) = Some rule →
  piece renderers heap origin side a
  = (origin a, memberMarkup side rule (data (heap a))).
Proof. intros H. unfold piece. by rewrite (markupOf_lookup _ _ rule). Qed.

#[local] Abbreviation registered := (registered renderers heap).
#[local] Abbreviation renderAnnotation := (renderAnnotation renderers heap).
#[local] Abbreviation piece := (piece renderers heap).

Lemma registered_lookup a :
  registered a → ∃ rule, member renderers (type (heap a)) = Some rule.
Proof. intros [rule H]. eauto. Qed.

(** The two loops over the part of the stack above a buried annotation. *)
Lemma mapM_rendered origin side l :
  mapM (λ a, s ← rendered renderers heap side a; mret (origin a, s)) l
  = if decide (Forall registered l)
    then Return (map (piece origin side) l)
    else Throw TypeError.
Proof.
  induction l as [|a l IH]; [done|].
  change (mapM ?f (a :: l)) with (y ← f a; k ← mapM f l; mret (y :: k)).
  rewrite IH. unfold rendered.
  destruct (member renderers (type (heap a))) as [rule|] eqn:Hrule; cbn.
  - destruct (decide (Forall registered l)) as [Hl|Hl].
    + rewrite decide_True; [|constructor; [by exists rule|done]].
      cbn. by rewrite (piece_lookup _ _ _ rule).
    + rewrite decide_False; [done|]. by intros [_ ?]%Forall_cons.
  - rewrite decide_False; [done|].
    intros [[rule Hsome] _]%Forall_cons. simpl in Hsome. congruence.
Qed.

Lemma renderAnnotation_unregistered bias a stack :
  member renderers (type (heap a)) = None →
  renderAnnotation bias a stack = Return ([], stack).
Proof. intros H. unfold renderAnnotation. by rewrite H. Qed.

Lemma renderAnnotation_open a stack :
  registered a →
  renderAnnotation "open" a stack
  = Return ([piece Open open a], stack ++ [a]).
Proof.
  intros [rule H]%registered_lookup. unfold renderAnnotation. rewrite H.
  rewrite decide_True by done.
  by rewrite (piece_lookup _ _ _ rule).
Qed.

Lemma renderAnnotation_close_top bias a below :
  bias ≠ "open" →
  registered a →
  renderAnnotation bias a (below ++ [a])
  = Return ([piece Close close a], below).
Proof.
  intros Hbias [rule H]%registered_lookup. unfold renderAnnotation. rewrite H.
  rewrite decide_False by done.
  rewrite decide_True by apply last_snoc.
  rewrite removelast_last.
  by rewrite (piece_lookup _ _ _ rule).
Qed.

Lemma renderAnnotation_close_absent bias a stack :
  bias ≠ "open" →
  registered a →
  a ∉ stack →
  renderAnnotation bias a stack = Throw InvalidStackError.
Proof.
  intros Hbias [rule H]%registered_lookup Hnot.
  unfold renderAnnotation. rewrite H.
  rewrite decide_False by done.
  rewrite decide_False by (intros ?%last_Some_elem_of; done).
  rewrite decide_True by by apply inArray_absent.
  done.
Qed.

Lemma renderAnnotation_close_buried bias a below above :
  bias ≠ "open" →
  registered a →
  a ∉ below →
  last (below ++ a :: above) ≠ Some a →
  renderAnnotation bias a (below ++ a :: above)
  = if decide (Forall registered above)
    then Return (map (piece Suspend close) (reverse above)
                   ++ piece Close close a :: map (piece Resume open) above,
                 below ++ above)
    else Throw TypeError.
Proof.
  intros Hbias [rule H]%registered_lookup Hnot Hlast.
  unfold renderAnnotation. rewrite H.
  rewrite decide_False by done.
  rewrite decide_False by done.
  rewrite inArray_first by done.
  rewrite decide_False by lia.
  replace (Z.to_nat (Z.of_nat (length below) + 1))
    with (length below + 1)%nat by lia.
  rewrite Nat2Z.id, drop_app_add, delete_middle. cbn [drop]. rewrite drop_0.
  rewrite !mapM_rendered.
  destruct (decide (Forall registered above)) as [Hreg|Hreg].
  - rewrite decide_True by by apply Forall_reverse.
    cbn. by rewrite (piece_lookup _ _ _ rule).
  - rewrite decide_False; [done|].
    intros Hrev. apply Hreg. apply Forall_reverse in Hrev.
    by rewrite reverse_involutive in Hrev.
Qed.

(** A close request for an annotation that is once on a stack of
    registered annotations: whether it is the innermost or not, it leaves
    the stack and what was above it is closed and reopened. *)
Lemma renderAnnotation_close_present bias a below above :
  bias ≠ "open" →
  registered a →
  a ∉ below →
  a ∉ above →
  Forall registered above →
  renderAnnotation bias a (below ++ a :: above)
  = Return (map (piece Suspend close) (reverse above)
              ++ piece Close close a :: map (piece Resume open) above,
            below ++ above).
Proof.
  intros Hbias Hreg Hbelow Habove Hall.
  destruct (decide (above = [])) as [->|Hne].
  - rewrite app_nil_r. by apply renderAnnotation_close_top.
  - rewrite renderAnnotation_close_buried; try done.
    + by rewrite decide_True.
    + rewrite last_app_cons. destruct above as [|b above']; [done|].
      rewrite last_cons_cons. by intros ?%last_Some_elem_of.
Qed.

(** Every request that returns is one of three outcomes. *)
Lemma renderAnnotation_Return bias a stack pieces stack' :
  renderAnnotation bias a stack = Return (pieces, stack') →
  rendering renderers heap bias a stack pieces stack'.
Proof.
  intros Hret.
  destruct (member renderers (type (heap a))) as [rule|] eqn:Hrule.
  2: { rewrite renderAnnotation_unregistered in Hret by done.
       injection Hret as <- <-. by constructor. }
  assert (registered a) as Hreg by by exists rule.
  destruct (decide (bias = "open")) as [->|Hbias].
  { rewrite renderAnnotation_open in Hret by done.
    injection Hret as <- <-. by constructor. }
  destruct (decide (last stack = Some a)) as [Htop|Htop].
  { apply last_Some in Htop as [below ->].
    rewrite renderAnnotation_close_top in Hret by done.
    injection Hret as <- <-.
    rewrite <-(app_nil_r below) at 2.
    by apply (rendering_close _ _ bias a below []). }
  destruct (decide (a ∈ stack)) as [Hin|Hnot].
  2: { by rewrite renderAnnotation_close_absent in Hret. }
  apply list_elem_of_split_l in Hin as (below & above & -> & Hbelow).
  rewrite renderAnnotation_close_buried in Hret by done.
  case_decide; [|done].
  injection Hret as <- <-. by constructor.
Qed.

End RenderAnnotation.

(** ** The pass and its requests *)

Section Requests.

Variable renderers : gmap string RenderRule.
Variable heap : ref → Annotation.

#[local] Abbreviation registered := (registered renderers heap).
#[local] Abbreviation renderAnnotation := (renderAnnotation renderers heap).
#[local] Abbreviation render := (render renderers heap).
#[local] Abbreviation transition := (transition renderers heap).
#[local] Abbreviation loop := (loop renderers heap).
#[local] Abbreviation closeRemaining := (closeRemaining renderers heap).
#[local] Abbreviation pass := (pass renderers heap).
#[local] Abbreviation exec := (exec renderers heap).
#[local] Abbreviation run := (run renderers heap).
#[local] Abbreviation piece := (piece renderers heap).

Lemma render_unfold bias a s :
  render bias a s
  = match renderAnnotation bias a (stack s) with
    | Return (pieces, stack') =>
        Return (tt, {| out := out s ++ pieces; stack := stack' |})
    | Throw e => Throw e
    end.
Proof.
  unfold render. by destruct (renderAnnotation bias a (stack s)) as [[??]|?].
Qed.

Lemma render_Return bias a s pieces stack' :
  renderAnnotation bias a (stack s) = Return (pieces, stack') →
  render bias a s = Return (tt, {| out := out s ++ pieces; stack := stack' |}).
Proof. intros H. by rewrite render_unfold, H. Qed.

Lemma render_Throw bias a s e :
  renderAnnotation bias a (stack s) = Throw e → render bias a s = Throw e.
Proof. intros H. by rewrite render_unfold, H. Qed.

Lemma render_inv bias a s u s' :
  render bias a s = Return (u, s') →
  ∃ pieces,
    rendering renderers heap bias a (stack s) pieces (stack s')
    ∧ out s' = out s ++ pieces.
Proof.
  rewrite render_unfold.
  destruct (renderAnnotation bias a (stack s)) as [[pieces st]|e] eqn:Hr; [|done].
  intros [= <- <-]. exists pieces. split; [|done].
  by apply renderAnnotation_Return.
Qed.

(** A request for an annotation that the guard does not admit changes
    nothing. *)
Lemma render_unregistered bias a s :
  member renderers (type (heap a)) = None → render bias a s = Return (tt, s).
Proof.
  intros H. rewrite render_unfold, renderAnnotation_unregistered by done.
  destruct s. by rewrite app_nil_r.
Qed.

Lemma run_app before after s :
  run (before ++ after) s = (run before ;; run after) s.
Proof.
  revert s. induction before as [|step before IH]; intros s; simpl; [done|].
  rewrite !pass_bind_unfold. destruct (exec step s) as [[[] s']|e]; [|done].
  rewrite IH. by rewrite pass_bind_unfold.
Qed.

Lemma run_app_Return before after s s' :
  run before s = Return (tt, s') → run (before ++ after) s = run after s'.
Proof. intros H. by rewrite run_app, pass_bind_unfold, H. Qed.

Lemma run_app_Throw before after s e :
  run before s = Throw e → run (before ++ after) s = Throw e.
Proof. intros H. by rewrite run_app, pass_bind_unfold, H. Qed.

Lemma run_cons_Return step rest s s' :
  exec step s = Return (tt, s') → run (step :: rest) s = run rest s'.
Proof. intros H. simpl. by rewrite pass_bind_unfold, H. Qed.

Lemma run_app_inv before after s s'' :
  run (before ++ after) s = Return (tt, s'') →
  ∃ s', run before s = Return (tt, s') ∧ run after s' = Return (tt, s'').
Proof.
  rewrite run_app. intros ([] & s' & H1 & H2)%pass_bind_inv. eauto.
Qed.

Lemma run_requests bias l s :
  run (map (Request bias) l) s = forEach (render bias) l s.
Proof.
  revert s. induction l as [|a l IH]; intros s; simpl; [done|].
  rewrite !pass_bind_unfold. destruct (render bias a s) as [[[] s']|e]; [|done].
  apply IH.
Qed.

Lemma filter_not_elem_of_nil (l : list ref) : filter (.∉ []) l = l.
Proof.
  induction l as [|a l IH]; [done|].
  rewrite filter_cons_True by apply not_elem_of_nil. by rewrite IH.
Qed.

(** The loop of the code that skips the elements found in [other] is the
    loop over the elements that are not in [other]. *)
Lemma forEach_inArray body other l s :
  forEach (λ a, if decide (inArray a other = (-1)%Z) then body a else mret tt) l s
  = forEach body (filter (.∉ other) l) s.
Proof.
  rewrite <-forEach_filter. apply forEach_ext. intros a s' _.
  destruct (decide (a ∉ other)) as [Hnot|Hin].
  - rewrite decide_True; [reflexivity|]. by apply inArray_absent.
  - rewrite decide_False; [reflexivity|]. by intros ?%inArray_minus_one.
Qed.

Lemma run_requests_app bias1 l1 bias2 l2 s :
  run (map (Request bias1) l1 ++ map (Request bias2) l2) s
  = (forEach (render bias1) l1 ;; forEach (render bias2) l2) s.
Proof.
  rewrite run_app, !pass_bind_unfold, run_requests.
  destruct (forEach (render bias1) l1 s) as [[[] s']|e]; [|done].
  apply run_requests.
Qed.

Lemma transition_difference left right s :
  transition left right s = run (difference left right) s.
Proof.
  unfold difference. rewrite run_requests_app, pass_bind_unfold.
  destruct left as [c|c l], right as [d|d r]; cbn [annotations_of transition].
  - done.
  - by rewrite filter_not_elem_of_nil.
  - rewrite filter_not_elem_of_nil.
    by destruct (forEach (render "close") l s) as [[[] s']|e].
  - rewrite pass_bind_unfold, forEach_inArray.
    destruct (forEach (render "close") _ s) as [[[] s']|e]; [|done].
    apply forEach_inArray.
Qed.

Lemma loop_script left data s :
  loop left data s = run (script left data) s.
Proof.
  revert left s. induction data as [|unit rest IH]; intros left s; [done|].
  cbn [loop script]. rewrite run_app, !pass_bind_unfold, transition_difference.
  destruct (run (difference left unit) s) as [[[] s1]|e]; [|done].
  change (run (Character (chr_of unit) :: script unit rest) s1)
    with ((emit (chr_of unit) ;; run (script unit rest)) s1).
  rewrite !pass_bind_unfold.
  destruct (emit (chr_of unit) s1) as [[[] s2]|e]; [|done].
  apply IH.
Qed.

Lemma closeRemaining_closing right s :
  closeRemaining right s = run (closing right) s.
Proof.
  destruct right as [[c|c r]|]; cbn [closeRemaining closing annotations_of];
    try done.
  by rewrite run_requests.
Qed.

(** The pass is the run of its requests. *)
Lemma pass_program data :
  pass data
  = match run (program data) {| out := []; stack := [] |} with
    | Return (_, s) => Return s
    | Throw e => Throw e
    end.
Proof.
  unfold pass, program. rewrite run_app, !pass_bind_unfold, loop_script.
  destruct (run (script _ data) _) as [[[] s1]|e]; [|done].
  rewrite closeRemaining_closing.
  by destruct (run (closing _) s1) as [[[] s2]|e].
Qed.

End Requests.

(** ** Counting and nesting pieces *)

Lemma count_origin_app o p1 p2 :
  count_origin o (p1 ++ p2) = (count_origin o p1 + count_origin o p2)%nat.
Proof. unfold count_origin. by rewrite filter_app, length_app. Qed.

Lemma count_origin_cons o p ps :
  count_origin o (p :: ps)
  = ((if decide (p.1 = o) then 1 else 0) + count_origin o ps)%nat.
Proof. unfold count_origin. rewrite filter_cons. by case_decide. Qed.

Lemma count_origin_other o (f : ref → Piece) l :
  (∀ a, (f a).1 ≠ o) → count_origin o (map f l) = 0%nat.
Proof.
  intros Hf. induction l as [|a l IH]; [done|].
  cbn [map]. rewrite count_origin_cons, IH. by rewrite decide_False.
Qed.

Lemma occurrences_app a l1 l2 :
  occurrences a (l1 ++ l2) = (occurrences a l1 + occurrences a l2)%nat.
Proof. unfold occurrences. by rewrite filter_app, length_app. Qed.

Lemma occurrences_cons a x l :
  occurrences a (x :: l)
  = ((if decide (x = a) then 1 else 0) + occurrences a l)%nat.
Proof. unfold occurrences. rewrite filter_cons. by case_decide. Qed.

Lemma nest_app tags p1 p2 :
  nest tags (p1 ++ p2) = nest tags p1 ≫= λ tags', nest tags' p2.
Proof.
  revert tags. induction p1 as [|[[a|a|a|a|] m] p1 IH]; intros tags; cbn;
    try done; try apply IH.
  all: case_decide; [apply IH|done].
Qed.

Lemma nest_Text tags m rest : nest tags ((Text, m) :: rest) = nest tags rest.
Proof. done. Qed.

(** What the brackets say about the number of tags. *)
Lemma nest_balance tags pieces tags' a :
  nest tags pieces = Some tags' →
  (opens a pieces + occurrences a tags
   = closes a pieces + occurrences a tags')%nat.
Proof.
  unfold opens, closes.
  revert tags. induction pieces as [|[o m] rest IH]; intros tags Hnest.
  { injection Hnest as <-. done. }
  rewrite !count_origin_cons. cbn [fst].
  destruct o as [x|x|x|x|]; cbn in Hnest.
  - apply IH in Hnest. rewrite occurrences_app, occurrences_cons in Hnest.
    repeat case_decide; simplify_eq; unfold occurrences in *; simpl in *; lia.
  - case_decide as Hlast; [|done]. apply last_Some in Hlast as [t0 ->].
    rewrite removelast_last in Hnest. apply IH in Hnest.
    rewrite occurrences_app, occurrences_cons.
    repeat case_decide; simplify_eq; unfold occurrences in *; simpl in *; lia.
  - case_decide as Hlast; [|done]. apply last_Some in Hlast as [t0 ->].
    rewrite removelast_last in Hnest. apply IH in Hnest.
    rewrite occurrences_app, occurrences_cons.
    repeat case_decide; simplify_eq; unfold occurrences in *; simpl in *; lia.
  - apply IH in Hnest. rewrite occurrences_app, occurrences_cons in Hnest.
    repeat case_decide; simplify_eq; unfold occurrences in *; simpl in *; lia.
  - apply IH in Hnest.
    repeat case_decide; simplify_eq; lia.
Qed.

(** ** What every request keeps *)

Section Invariants.

Variable renderers : gmap string RenderRule.
Variable heap : ref → Annotation.

#[local] Abbreviation registered := (registered renderers heap).
#[local] Abbreviation rendering := (rendering renderers heap).
#[local] Abbreviation render := (render renderers heap).
#[local] Abbreviation exec := (exec renderers heap).
#[local] Abbreviation run := (run renderers heap).
#[local] Abbreviation piece := (piece renderers heap).

(** Only registered annotations are pushed. *)
Lemma rendering_registered bias a stack pieces stack' :
  rendering bias a stack pieces stack' →
  Forall registered stack → Forall registered stack'.
Proof.
  intros Hr Hall. destruct Hr as [| a stack Hreg | bias a below above _ _ _].
  - done.
  - apply Forall_app. split; [done|]. by constructor.
  - apply Forall_app in Hall as [Hbelow [_ Habove]%Forall_cons].
    by apply Forall_app.
Qed.

Lemma nest_suspend tags above side rest :
  nest (tags ++ above) (map (piece Suspend side) (reverse above) ++ rest)
  = nest tags rest.
Proof.
  induction above as [|x above IH] using rev_ind.
  { by rewrite app_nil_r. }
  rewrite reverse_snoc, app_assoc. cbn.
  by rewrite decide_True, removelast_last by apply last_snoc.
Qed.

Lemma nest_resume tags above side rest :
  nest tags (map (piece Resume side) above ++ rest)
  = nest (tags ++ above) rest.
Proof.
  revert tags. induction above as [|x above IH]; intros tags.
  { by rewrite app_nil_r. }
  cbn. by rewrite IH, <-app_assoc.
Qed.

(** The pieces of a request are brackets that lead from the stack before
    it to the stack after it. *)
Lemma rendering_nest bias a stack pieces stack' :
  rendering bias a stack pieces stack' → nest stack pieces = Some stack'.
Proof.
  intros [| a0 stack0 Hreg | bias0 a0 below above _ _ _].
  - done.
  - done.
  - rewrite (cons_middle a0 below above), app_assoc, nest_suspend. cbn.
    rewrite decide_True, removelast_last by apply last_snoc.
    rewrite <-(app_nil_r (map _ above)), nest_resume. done.
Qed.

(** A request pushes or removes its annotation, and no other. *)
Lemma rendering_pushes bias x stack pieces stack' a :
  rendering bias x stack pieces stack' →
  (pushes a pieces + occurrences a stack
   = removals a pieces + occurrences a stack')%nat.
Proof.
  unfold pushes, removals.
  intros [| a0 stack0 Hreg | bias0 a0 below above _ _ _].
  - done.
  - rewrite occurrences_app, occurrences_cons, !count_origin_cons. cbn.
    repeat case_decide; simplify_eq; unfold occurrences; simpl; lia.
  - rewrite !count_origin_app, !count_origin_cons, !occurrences_app,
      occurrences_cons.
    rewrite !count_origin_other by done. cbn.
    repeat case_decide; simplify_eq; lia.
Qed.

Lemma exec_inv step s s' :
  exec step s = Return (tt, s') →
  ∃ pieces,
    out s' = out s ++ pieces
    ∧ match step with
      | Request bias a => rendering bias a (stack s) pieces (stack s')
      | Character chr => pieces = [(Text, escape chr)] ∧ stack s' = stack s
      end.
Proof.
  destruct step as [bias a|chr]; cbn.
  - intros (pieces & Hr & Hout)%render_inv. eauto.
  - intros [= <-]. eauto.
Qed.

(** A property of the local variables that every step keeps, the run
    keeps. *)
Lemma run_invariant (I : Locals → Prop) steps s s' :
  (∀ step t t', I t → exec step t = Return (tt, t') → I t') →
  I s → run steps s = Return (tt, s') → I s'.
Proof.
  intros Hstep. revert s. induction steps as [|step rest IH]; intros s Hs.
  - by intros [= <-].
  - cbn. intros ([] & t & Hexec & Hrun)%pass_bind_inv. eauto.
Qed.

Lemma run_registered steps s s' :
  Forall registered (stack s) →
  run steps s = Return (tt, s') →
  Forall registered (stack s').
Proof.
  apply (run_invariant (λ t, Forall registered (stack t))).
  intros step t t' Ht (pieces & _ & Hstep)%exec_inv.
  destruct step as [bias a|chr].
  - exact (rendering_registered _ _ _ _ _ Hstep Ht).
  - destruct Hstep as [_ ->]. done.
Qed.

Lemma run_nest tags steps s s' :
  nest tags (out s) = Some (stack s) →
  run steps s = Return (tt, s') →
  nest tags (out s') = Some (stack s').
Proof.
  apply (run_invariant (λ t, nest tags (out t) = Some (stack t))).
  intros step t t' Ht (pieces & -> & Hstep)%exec_inv.
  rewrite nest_app, Ht. cbn.
  destruct step as [bias a|chr].
  - exact (rendering_nest _ _ _ _ _ Hstep).
  - destruct Hstep as [-> ->]. done.
Qed.

Lemma run_pushes a steps s s' :
  (pushes a (out s) = removals a (out s) + occurrences a (stack s))%nat →
  run steps s = Return (tt, s') →
  (pushes a (out s') = removals a (out s') + occurrences a (stack s'))%nat.
Proof.
  apply (run_invariant
    (λ t, pushes a (out t) = removals a (out t) + occurrences a (stack t))%nat).
  intros step t t' Ht (pieces & -> & Hstep)%exec_inv.
  unfold pushes, removals in *. rewrite !count_origin_app.
  destruct step as [bias x|chr].
  - apply (rendering_pushes _ _ _ _ _ a) in Hstep.
    unfold pushes, removals in Hstep. lia.
  - destruct Hstep as [-> ->]. rewrite !count_origin_cons. cbn.
    rewrite !decide_False by done. unfold count_origin in *. simpl. lia.
Qed.

(** A run never reads a member of [undefined]. *)
Lemma run_no_TypeError steps s :
  Forall registered (stack s) → run steps s ≠ Throw TypeError.
Proof.
  revert s. induction steps as [|step rest IH]; intros s Hs; [done|].
  cbn. rewrite pass_bind_unfold.
  destruct (exec step s) as [[[] t]|e] eqn:Hexec.
  - apply IH. apply (run_registered [step] s); [done|].
    cbn. by rewrite pass_bind_unfold, Hexec.
  - intros [= ->]. destruct step as [bias a|chr]; [|done].
    cbn in Hexec. rewrite render_unfold in Hexec.
    destruct (renderAnnotation _ _ bias a (stack s)) as [[??]|e] eqn:Hr; [done|].
    injection Hexec as ->.
    destruct (member renderers (type (heap a))) as [rule|] eqn:Hrule.
    2: { by rewrite renderAnnotation_unregistered in Hr. }
    assert (registered a) as Hreg by by exists rule.
    destruct (decide (bias = "open")) as [->|Hbias].
    { by rewrite renderAnnotation_open in Hr. }
    destruct (decide (last (stack s) = Some a)) as [Htop|Htop].
    { apply last_Some in Htop as [below Hst]. rewrite Hst in Hr.
      by rewrite renderAnnotation_close_top in Hr. }
    destruct (decide (a ∈ stack s)) as [Hin|Hnot].
    2: { by rewrite renderAnnotation_close_absent in Hr. }
    apply list_elem_of_split_l in Hin as (below & above & Hst & Hbelow).
    rewrite Hst in Hr, Hs, Htop.
    rewrite renderAnnotation_close_buried in Hr by done.
    apply Forall_app in Hs as [_ [_ Habove]%Forall_cons].
    by rewrite decide_True in Hr.
Qed.

End Invariants.

(** ** Units that list no annotation twice *)

Lemma filter_ext_elem_of {A} (P Q : A → Prop)
    `{!∀ x, Decision (P x), !∀ x, Decision (Q x)} (l : list A) :
  (∀ x, x ∈ l → (P x ↔ Q x)) → filter P l = filter Q l.
Proof.
  induction l as [|x l IH]; intros Hext; [done|].
  rewrite !filter_cons.
  destruct (decide (P x)) as [HP|HP], (decide (Q x)) as [HQ|HQ].
  - f_equal. apply IH. intros y Hy. apply Hext. by right.
  - destruct HQ. apply Hext; [by left|done].
  - destruct HP. apply Hext; [by left|done].
  - apply IH. intros y Hy. apply Hext. by right.
Qed.

Lemma filter_none {A} (P : A → Prop) `{!∀ x, Decision (P x)} (l : list A) :
  (∀ x, x ∈ l → ¬ P x) → filter P l = [].
Proof.
  induction l as [|x l IH]; intros Hnone; [done|].
  rewrite filter_cons_False by (apply Hnone; by left).
  apply IH. intros y Hy. apply Hnone. by right.
Qed.

(** ** The text of the output *)

Lemma texts_app p1 p2 : texts (p1 ++ p2) = texts p1 ++ texts p2.
Proof. apply filter_app. Qed.

Lemma texts_markup (f : ref → Piece) l :
  (∀ a, (f a).1 ≠ Text) → texts (map f l) = [].
Proof.
  intros Hf. apply filter_none. intros p (a & -> & _)%list_elem_of_fmap.
  apply Hf.
Qed.

Lemma characters_app s1 s2 :
  characters (s1 ++ s2) = characters s1 ++ characters s2.
Proof. apply omap_app. Qed.

Lemma characters_requests bias l : characters (map (Request bias) l) = [].
Proof. by induction l. Qed.

Lemma characters_script left data :
  characters (script left data) = map chr_of data.
Proof.
  revert left. induction data as [|unit rest IH]; intros left; [done|].
  cbn [script map]. unfold difference.
  rewrite !characters_app, !characters_requests. cbn. by rewrite IH.
Qed.

Lemma characters_program data : characters (program data) = map chr_of data.
Proof.
  unfold program. rewrite characters_app, characters_script.
  destruct (last data) as [unit|]; cbn [closing].
  - by rewrite characters_requests, app_nil_r.
  - by rewrite app_nil_r.
Qed.

Section Texts.

Variable renderers : gmap string RenderRule.
Variable heap : ref → Annotation.

(** A request appends markup only. *)
Lemma rendering_texts bias a stack pieces stack' :
  rendering renderers heap bias a stack pieces stack' → texts pieces = [].
Proof.
  intros [| a0 stack0 _ | bias0 a0 below above _ _ _]; [done|done|].
  rewrite texts_app, (texts_markup (piece renderers heap Suspend close))
    by done.
  change (piece renderers heap Close close a0 :: ?l)
    with ([piece renderers heap Close close a0] ++ l).
  by rewrite texts_app, (texts_markup (piece renderers heap Resume open)).
Qed.

(** The text of a run is the rendering of its characters, in order. *)
Lemma run_texts steps s s' :
  run renderers heap steps s = Return (tt, s') →
  texts (out s')
  = texts (out s) ++ map (λ chr, (Text, escape chr)) (characters steps).
Proof.
  revert s. induction steps as [|step rest IH]; intros s.
  { intros [= <-]. by rewrite app_nil_r. }
  cbn [run]. intros ([] & t & Hexec & Hrun)%pass_bind_inv.
  rewrite (IH _ Hrun). apply exec_inv in Hexec as (pieces & -> & Hstep).
  rewrite texts_app, <-app_assoc. f_equal.
  destruct step as [bias a|chr].
  - by rewrite (rendering_texts _ _ _ _ _ Hstep).
  - by destruct Hstep as [-> _].
Qed.

End Texts.

Section Distinct.

Variable renderers : gmap string RenderRule.
Variable heap : ref → Annotation.

#[local] Abbreviation registered := (registered renderers heap).
#[local] Abbreviation render := (render renderers heap).
#[local] Abbreviation run := (run renderers heap).
#[local] Abbreviation piece := (piece renderers heap).
#[local] Abbreviation live := (live renderers heap).
#[local] Abbreviation carries := (carries renderers heap).

(** Open requests push the registered annotations, in their order. *)
Lemma run_open_each l s :
  run (map (Request "open") l) s
  = Return (tt, {| out := out s ++ map (piece Open open) (live l);
                   stack := stack s ++ live l |}).
Proof.
  revert s. induction l as [|a l IH]; intros s.
  { cbn. destruct s. by rewrite !app_nil_r. }
  cbn [map]. unfold live.
  destruct (decide (registered a)) as [Hreg|Hreg].
  - erewrite run_cons_Return.
    2: { cbn. apply render_Return. by apply renderAnnotation_open. }
    rewrite IH. cbn [out stack]. rewrite filter_cons_True by done.
    cbn [map]. by rewrite <-!app_assoc.
  - erewrite run_cons_Return.
    2: { cbn. apply render_unregistered. by apply eq_None_not_Some. }
    rewrite IH. by rewrite filter_cons_False by done.
Qed.

(** Close requests for annotations that are on the stack when they are
    registered take them off the stack, whatever their order. *)
Lemma run_close_each l s :
  NoDup l →
  NoDup (stack s) →
  Forall registered (stack s) →
  (∀ x, x ∈ l → registered x → x ∈ stack s) →
  ∃ pieces,
    run (map (Request "close") l) s
    = Return (tt, {| out := out s ++ pieces;
                     stack := filter (.∉ l) (stack s) |}).
Proof.
  revert s. induction l as [|a l IH]; intros s Hl Hstack Hreg Hin.
  { exists []. cbn. destruct s. by rewrite app_nil_r, filter_not_elem_of_nil. }
  apply NoDup_cons in Hl as [Ha Hl]. cbn [map].
  destruct (decide (registered a)) as [Hrega|Hrega].
  - assert (a ∈ stack s) as Hmem by (apply Hin; [by left|done]).
    apply list_elem_of_split_l in Hmem as (below & above & Hst & Hbelow).
    rewrite Hst in Hstack, Hreg.
    assert (a ∉ above) as Habove.
    { apply NoDup_app in Hstack as (_ & _ & [? _]%NoDup_cons). done. }
    assert (NoDup (below ++ above)) as Hstack'.
    { apply NoDup_app in Hstack as (? & Hdisj & [_ ?]%NoDup_cons).
      apply NoDup_app. split_and!; [done| |done].
      intros x Hx Hx'. apply (Hdisj x Hx). by right. }
    assert (Forall registered (below ++ above)) as Hreg'.
    { apply Forall_app in Hreg as [? [_ ?]%Forall_cons]. by apply Forall_app. }
    erewrite run_cons_Return.
    2: { cbn. apply render_Return. rewrite Hst.
         apply renderAnnotation_close_present; try done.
         by apply Forall_app in Hreg' as [_ ?]. }
    match goal with
    | |- context [run _ ?s1] => destruct (IH s1) as [pieces ->]
    end; [done|done|done| |].
    { cbn. intros x Hx Hregx.
      specialize (Hin x (list_elem_of_further _ _ _ Hx) Hregx).
      rewrite Hst in Hin.
      apply elem_of_app in Hin as [?|[->|?]%elem_of_cons];
        [apply elem_of_app; by left|done|apply elem_of_app; by right]. }
    eexists. cbn [out stack]. rewrite <-app_assoc. do 3 f_equal.
    rewrite Hst, !filter_app, filter_cons_False.
    2: { intros Hn. apply Hn. by left. }
    f_equal; apply filter_ext_elem_of; intros x Hx;
      rewrite not_elem_of_cons; naive_solver.
  - erewrite run_cons_Return.
    2: { cbn. apply render_unregistered. by apply eq_None_not_Some. }
    destruct (IH s) as [pieces ->]; [done|done|done| |].
    { intros x Hx. apply Hin. by right. }
    exists pieces. do 3 f_equal.
    apply filter_ext_elem_of. intros x Hx. rewrite not_elem_of_cons.
    split; [|naive_solver]. intros Hnot. split; [|done].
    intros ->. apply Hrega. by eapply Forall_forall in Hreg.
Qed.

Lemma carries_registered unit stack :
  carries unit stack → Forall registered stack.
Proof. intros [_ H]. apply Forall_forall. intros x Hx. by apply H. Qed.

(** From one unit to the next the stack follows the annotations. *)
Lemma difference_carries left right s :
  carries left (stack s) →
  NoDup (annotations_of right) →
  NoDup (annotations_of left) →
  ∃ s', run (difference left right) s = Return (tt, s')
        ∧ carries right (stack s').
Proof.
  intros Hc Hright Hleft. unfold difference.
  destruct (run_close_each
    (filter (.∉ annotations_of right) (annotations_of left)) s)
    as [pieces Hclose].
  { by apply NoDup_filter. }
  { by destruct Hc. }
  { by eapply carries_registered. }
  { intros x [_ Hx]%list_elem_of_filter Hreg. by apply Hc. }
  erewrite run_app_Return by done. rewrite run_open_each. cbn [out stack].
  eexists. split; [done|]. cbn [stack]. destruct Hc as [Hnodup Hc].
  split.
  - apply NoDup_app. split_and!.
    + by apply NoDup_filter.
    + intros x [_ Hx]%list_elem_of_filter
        [_ [Hnot _]%list_elem_of_filter]%list_elem_of_filter.
      apply Hnot. by apply Hc.
    + by do 2 apply NoDup_filter.
  - intros x. unfold live.
    rewrite elem_of_app, !list_elem_of_filter, Hc.
    destruct (decide (x ∈ annotations_of left)),
      (decide (x ∈ annotations_of right)); naive_solver.
Qed.

Lemma script_carries data left s :
  carries left (stack s) →
  NoDup (annotations_of left) →
  distinct data →
  ∃ s', run (script left data) s = Return (tt, s')
        ∧ carries (default left (last data)) (stack s').
Proof.
  revert left s. induction data as [|unit rest IH]; intros left s Hc Hleft Hd.
  { eauto. }
  apply Forall_cons in Hd as [Hunit Hrest]. cbn [script].
  destruct (difference_carries left unit s) as (s1 & Hrun & Hc1); try done.
  erewrite run_app_Return by done.
  erewrite run_cons_Return by done.
  destruct (IH unit {| out := out s1 ++ [(Text, escape (chr_of unit))];
                       stack := stack s1 |}) as (s' & -> & Hc'); try done.
  exists s'. split; [done|]. rewrite last_cons. by destruct (last rest).
Qed.

(** A pass over such data returns and leaves the stack empty. *)
Lemma program_distinct data :
  distinct data →
  ∃ s, run (program data) {| out := []; stack := [] |} = Return (tt, s)
       ∧ stack s = [].
Proof.
  intros Hd. unfold program.
  destruct (script_carries data (Plain EmptyString) {| out := []; stack := [] |})
    as (s1 & Hrun & Hc); try done.
  { split; [constructor|]. intros x. cbn.
    split; [by intros ?%elem_of_nil|by intros [?%elem_of_nil _]]. }
  { constructor. }
  erewrite run_app_Return by done.
  destruct (last data) as [unit|] eqn:Hlast; cbn [closing default] in *.
  2: { destruct Hc as [_ Hc]. exists s1. split; [done|].
       destruct (stack s1) as [|x st]; [done|].
       by destruct (proj1 (Hc x) (list_elem_of_here _ _)) as [?%elem_of_nil _]. }
  assert (NoDup (annotations_of unit)) as Hunit.
  { eapply Forall_forall in Hd; [done|]. by apply last_Some_elem_of. }
  destruct (run_close_each (annotations_of unit) s1) as [pieces ->];
    try done.
  { by destruct Hc. }
  { by eapply carries_registered. }
  { intros x Hx Hreg. by apply Hc. }
  eexists. split; [done|]. cbn [stack]. apply filter_none.
  intros x Hx Hnot. apply Hnot. by apply Hc.
Qed.

End Distinct.

(** ** The call as a whole *)

Section GetHtml.

Variable renderers : gmap string RenderRule.
Variable heap : ref → Annotation.
Variable normalize : Range → Range.

#[local] Abbreviation registered := (registered renderers heap).
#[local] Abbreviation render := (render renderers heap).
#[local] Abbreviation run := (run renderers heap).
#[local] Abbreviation pass := (pass renderers heap).
#[local] Abbreviation getHtml := (getHtml renderers heap normalize).
#[local] Abbreviation piece := (piece renderers heap).
#[local] Abbreviation live := (live renderers heap).

Lemma getHtml_pass range data :
  getHtml range data
  = match pass data with
    | Return s => Return (flatten (out s))
    | Throw e => Throw e
    end.
Proof. unfold getHtml. by destruct (pass data). Qed.

Lemma pass_Return data s :
  run (program data) {| out := []; stack := [] |} = Return (tt, s) →
  pass data = Return s.
Proof. intros H. by rewrite pass_program, H. Qed.

Lemma pass_Throw data e :
  run (program data) {| out := []; stack := [] |} = Throw e →
  pass data = Throw e.
Proof. intros H. by rewrite pass_program, H. Qed.

Lemma pass_Return_inv data s :
  pass data = Return s →
  run (program data) {| out := []; stack := [] |} = Return (tt, s).
Proof.
  rewrite pass_program.
  destruct (run _ _) as [[[] s']|e]; [|done]. by intros [= ->].
Qed.

Lemma append_assoc (s1 s2 s3 : string) :
  (s1 +:+ s2) +:+ s3 = s1 +:+ (s2 +:+ s3).
Proof.
  induction s1 as [|c s1 IH]; [done|].
  change (String c ((s1 +:+ s2) +:+ s3) = String c (s1 +:+ (s2 +:+ s3))).
  by rewrite IH.
Qed.

Lemma append_empty (s : string) : s +:+ EmptyString = s.
Proof.
  induction s as [|c s IH]; [done|].
  change (String c (s +:+ EmptyString) = String c s). by rewrite IH.
Qed.

Lemma flatten_app p1 p2 : flatten (p1 ++ p2) = flatten p1 +:+ flatten p2.
Proof.
  induction p1 as [|[o m] p1 IH]; [done|].
  change (m +:+ flatten (p1 ++ p2) = (m +:+ flatten p1) +:+ flatten p2).
  by rewrite IH, append_assoc.
Qed.

(** Characters alone: one piece of text each, and the stack is not
    touched. *)
Lemma run_plain chars left s :
  run (script (Plain left) (map Plain chars)) s
  = Return (tt, {| out := out s ++ map (λ chr, (Text, escape chr)) chars;
                   stack := stack s |}).
Proof.
  revert left s. induction chars as [|chr chars IH]; intros left s.
  { cbn. destruct s. by rewrite app_nil_r. }
  cbn. rewrite pass_bind_unfold. cbn. rewrite IH. cbn.
  by rewrite <-app_assoc.
Qed.

Lemma last_map_Plain chars :
  closing (last (map Plain chars)) = [].
Proof.
  induction chars as [|chr chars IH]; [done|].
  cbn [map]. rewrite last_cons.
  destruct (last (map Plain chars)) as [unit|] eqn:Hlast; [done|done].
Qed.

(** Close requests made from the innermost annotation outwards: each one
    finds its annotation on top. *)
Lemma run_close_reversed l below s :
  stack s = below ++ reverse (live l) →
  run (map (Request "close") l) s
  = Return (tt, {| out := out s ++ map (piece Close close) (live l);
                   stack := below |}).
Proof.
  revert s. induction l as [|a l IH]; intros s Hs.
  { cbn in *. rewrite app_nil_r in *. destruct s; cbn in *. by subst. }
  cbn [map]. unfold live in *.
  destruct (decide (registered a)) as [Hreg|Hreg].
  - rewrite filter_cons_True in * by done.
    rewrite reverse_cons, app_assoc in Hs.
    erewrite run_cons_Return.
    2: { cbn. apply render_Return. rewrite Hs.
         by apply renderAnnotation_close_top. }
    rewrite IH by done. cbn. by rewrite <-app_assoc.
  - rewrite filter_cons_False in * by done.
    erewrite run_cons_Return.
    2: { cbn. apply render_unregistered. by apply eq_None_not_Some. }
    by apply IH.
Qed.

Lemma script_snoc left data unit :
  script left (data ++ [unit])
  = script left data
      ++ difference (default left (last data)) unit
      ++ [Character (chr_of unit)].
Proof.
  revert left. induction data as [|u data IH]; intros left.
  { reflexivity. }
  cbn [app script]. rewrite IH, last_cons.
  rewrite <-!app_assoc. cbn. by destruct (last data).
Qed.

End GetHtml.

(** ** Annotations that the guard does not admit *)

Lemma annotations_of_without a unit :
  annotations_of (without a unit) = filter (.≠ a) (annotations_of unit).
Proof. by destruct unit. Qed.

Lemma chr_of_without a unit : chr_of (without a unit) = chr_of unit.
Proof. by destruct unit. Qed.

Lemma filter_without a (l other : list ref) :
  filter (.≠ a) (filter (.∉ other) l)
  = filter (.∉ filter (.≠ a) other) (filter (.≠ a) l).
Proof.
  rewrite !list_filter_filter. apply filter_ext_elem_of. intros x _.
  rewrite list_elem_of_filter. naive_solver.
Qed.

Section Unregistered.

Variable renderers : gmap string RenderRule.
Variable heap : ref → Annotation.

#[local] Abbreviation render := (render renderers heap).
#[local] Abbreviation run := (run renderers heap).
#[local] Abbreviation pass := (pass renderers heap).

Variable a : ref.
Hypothesis unregistered : member renderers (type (heap a)) = None.

Lemma run_requests_without bias l s :
  run (map (Request bias) l) s
  = run (map (Request bias) (filter (.≠ a) l)) s.
Proof.
  revert s. induction l as [|x l IH]; intros s; [done|].
  cbn [map]. destruct (decide (x = a)) as [->|Hne].
  - rewrite filter_cons_False by (intros H; by apply H).
    erewrite run_cons_Return; [apply IH|].
    by apply render_unregistered.
  - rewrite filter_cons_True by done. cbn.
    rewrite !pass_bind_unfold. by destruct (render bias x s) as [[[] s']|e].
Qed.

Lemma run_difference_without left right s :
  run (difference left right) s
  = run (difference (without a left) (without a right)) s.
Proof.
  unfold difference. rewrite !annotations_of_without, <-!filter_without.
  rewrite !run_app, !pass_bind_unfold, <-run_requests_without.
  destruct (run (map (Request "close") _) s) as [[[] s']|e]; [|done].
  apply run_requests_without.
Qed.

Lemma run_script_without left data s :
  run (script left data) s
  = run (script (without a left) (map (without a) data)) s.
Proof.
  revert left s. induction data as [|unit rest IH]; intros left s; [done|].
  cbn [map script]. rewrite !run_app, !pass_bind_unfold.
  rewrite <-run_difference_without, chr_of_without.
  destruct (run (difference left unit) s) as [[[] s1]|e]; [|done].
  cbn. rewrite !pass_bind_unfold.
  destruct (emit _ s1) as [[[] s2]|e]; [|done].
  apply IH.
Qed.

Lemma run_closing_without right s :
  run (closing right) s = run (closing (without a <$> right)) s.
Proof.
  destruct right as [unit|]; [|done].
  cbn. rewrite annotations_of_without. apply run_requests_without.
Qed.

(** Taking [a] off every unit changes neither the pieces nor the stack. *)
Lemma pass_without data : pass data = pass (map (without a) data).
Proof.
  rewrite !pass_program. unfold program.
  rewrite !run_app, !pass_bind_unfold.
  rewrite <-(run_script_without (Plain EmptyString)).
  destruct (run (script _ data) _) as [[[] s1]|e]; [|done].
  change (map (without a) data) with (without a <$> data).
  by rewrite fmap_last, <-run_closing_without.
Qed.

End Unregistered.

(** ** Single steps, for runs written out *)

Section Steps.

Variable renderers : gmap string RenderRule.
Variable heap : ref → Annotation.

#[local] Abbreviation registered := (registered renderers heap).
#[local] Abbreviation exec := (exec renderers heap).
#[local] Abbreviation run := (run renderers heap).
#[local] Abbreviation piece := (piece renderers heap).

Lemma exec_open a s :
  registered a →
  exec (Request "open" a) s
  = Return (tt, {| out := out s ++ [piece Open open a];
                   stack := stack s ++ [a] |}).
Proof.
  intros Hreg. cbn. apply render_Return. by apply renderAnnotation_open.
Qed.

Lemma exec_close a below above s :
  registered a →
  stack s = below ++ a :: above →
  a ∉ below →
  a ∉ above →
  Forall registered above →
  exec (Request "close" a) s
  = Return (tt, {| out := out s
                            ++ map (piece Suspend close) (reverse above)
                            ++ piece Close close a
                            :: map (piece Resume open) above;
                   stack := below ++ above |}).
Proof.
  intros Hreg Hs Hbelow Habove Hall. cbn. apply render_Return. rewrite Hs.
  by apply renderAnnotation_close_present.
Qed.

Lemma exec_close_absent a s :
  registered a →
  a ∉ stack s →
  exec (Request "close" a) s = Throw InvalidStackError.
Proof.
  intros Hreg Hnot. cbn. apply render_Throw.
  by apply renderAnnotation_close_absent.
Qed.

Lemma exec_character chr s :
  exec (Character chr) s
  = Return (tt, {| out := out s ++ [(Text, escape chr)]; stack := stack s |}).
Proof. done. Qed.

Lemma renderAnnotation_no_TypeError bias a stack :
  Forall registered stack →
  renderAnnotation renderers heap bias a stack ≠ Throw TypeError.
Proof.
  intros Hall Hthrow.
  apply (run_no_TypeError renderers heap [Request bias a]
           {| out := []; stack := stack |}); [done|].
  cbn. rewrite pass_bind_unfold. by erewrite render_Throw.
Qed.

End Steps.

(** Evaluates the next steps of a run whose annotations are variables. *)
Ltac run_open :=
  erewrite run_cons_Return by (by apply exec_open); cbn [out stack app].
Ltac run_character :=
  erewrite run_cons_Return by apply exec_character; cbn [out stack app].
Ltac run_close below above :=
  erewrite run_cons_Return
    by (apply (exec_close _ _ _ below above);
        [done | reflexivity | set_solver | set_solver
        | repeat constructor; done]);
  cbn [out stack app map reverse rev_append].
Ltac filters :=
  repeat first
    [ rewrite filter_nil
    | rewrite filter_cons_True by set_solver
    | rewrite filter_cons_False by set_solver ].

Lemma flatten_text chars :
  flatten (map (λ chr, (Text, escape chr)) chars)
  = foldr (λ chr html, escape chr +:+ html) EmptyString chars.
Proof.
  induction chars as [|chr chars IH]; [done|].
  change (escape chr +:+ flatten (map (λ chr, (Text, escape chr)) chars)
          = escape chr +:+ foldr (λ chr html, escape chr +:+ html)
                             EmptyString chars).
  by rewrite IH.
Qed.

Lemma pass_plain renderers heap chars :
  pass renderers heap (map Plain chars)
  = Return {| out := map (λ chr, (Text, escape chr)) chars; stack := [] |}.
Proof.
  apply pass_Return. unfold program.
  by rewrite last_map_Plain, app_nil_r, run_plain.
Qed.

Lemma getHtml_plain renderers heap normalize range chars :
  getHtml renderers heap normalize range (map Plain chars)
  = Return (foldr (λ chr html, escape chr +:+ html) EmptyString chars).
Proof.
  rewrite getHtml_pass, pass_plain. f_equal. apply flatten_text.
Qed.

(** The entries of [htmlCharacters], and a character that has none. *)
Example escape_entities :
  escape "&" = "&amp;" ∧ escape "<" = "&lt;" ∧ escape ">" = "&gt;"
  ∧ escape "'" = "&#039;" ∧ escape dquote = "&quot;"
  ∧ escape newline = span "ve-ce-content-whitespace" +:+ "&#182;</span>"
  ∧ escape tab = span "ve-ce-content-whitespace" +:+ "&#8702;</span>"
  ∧ escape "a" = "a".
Proof. repeat split; vm_compute; reflexivity. Qed.

(** A link, whose open markup is computed from its data, next to an
    annotation without a renderer, then two characters with entities. *)
Example sample_link :
  Sample.html [Formatted "x" [Sample.L; Sample.U]; Plain "&"; Plain newline]
  = Return ("<span class=" +:+ dquote +:+ "ve-ce-content-format-link"
            +:+ dquote +:+ " data-href=" +:+ dquote +:+ "http://a.b"
            +:+ dquote +:+ ">x</span>&amp;"
            +:+ span "ve-ce-content-whitespace" +:+ "&#182;</span>").
Proof. vm_compute. reflexivity. Qed.

(** Annotations whose type is the name of an inherited member: one on a
    character, and one listed twice by the second of two units, whose
    second close finds the stack empty. *)
Example sample_inherited :
  Sample.html [Formatted "x" [Sample.K]] = Return "undefinedxundefined"
  ∧ Sample.html [Formatted "x" [Sample.H]; Formatted "y" [Sample.H; Sample.H]]
    = Throw InvalidStackError
  ∧ renderAnnotation annotationRenderers Sample.heap "close" Sample.H []
    = Throw InvalidStackError.
Proof. split_and!; vm_compute; reflexivity. Qed.

(** * The claims *)

(** C8.  On data that is characters only, [getHtml] returns the
    concatenation of the escaped forms of the characters, where the escaped
    form of a character is its entry in [htmlCharacters] when it has one and
    the character itself otherwise; every piece of the output is text, none
    is markup of an annotation, and the stack stays empty.  On empty data
    the result is the empty string. *)
Theorem plain_text_is_escaped renderers heap normalize range chars :
  getHtml renderers heap normalize range (map Plain chars)
  = Return (foldr (λ chr html, escape chr +:+ html) EmptyString chars)
  ∧ pass renderers heap (map Plain chars)
    = Return {| out := map (λ chr, (Text, escape chr)) chars; stack := [] |}
  ∧ getHtml renderers heap normalize range [] = Return EmptyString
  ∧ ∀ chr, escape chr = default chr (htmlCharacters !! chr).
Proof.
  split_and!.
  - apply getHtml_plain.
  - apply pass_plain.
  - apply (getHtml_plain renderers heap normalize range []).
  - intros chr. unfold escape. by destruct (htmlCharacters !! chr).
Qed.

(** C9.  The range given to [getHtml] has no effect on what it returns,
    whatever it is and whatever its normalisation does: the range is
    normalised and not read again.  What is returned is the rendering of
    the whole data of the node: the concatenation of the pieces of the pass
    over all the units, whose text is the rendering of the character of
    every unit, in order; when that pass throws, the call throws. *)
Theorem range_is_not_read renderers heap normalize range data :
  (∀ normalize', getHtml renderers heap normalize (Some range) data
                 = getHtml renderers heap normalize' None data)
  ∧ getHtml renderers heap normalize (Some range) data
    = match pass renderers heap data with
      | Return s => Return (flatten (out s))
      | Throw e => Throw e
      end
  ∧ ∀ s,
      pass renderers heap data = Return s →
      getHtml renderers heap normalize (Some range) data
      = Return (flatten (out s))
      ∧ texts (out s) = map (λ unit, (Text, escape (chr_of unit))) data.
Proof.
  split_and!.
  - intros normalize'. by rewrite !getHtml_pass.
  - apply getHtml_pass.
  - intros s Hpass. split; [by rewrite getHtml_pass, Hpass|].
    apply pass_Return_inv, run_texts in Hpass.
    rewrite Hpass, characters_program. cbn. by rewrite map_map.
Qed.

(** C9 on the three units [[x, A]], [[y, A, B]], [[z, B]] and a range that
    spans the second unit only. *)
Lemma range_is_not_read_witness :
  pass annotationRenderers Sample.heap
    [Formatted "x" [Sample.A]; Formatted "y" [Sample.A; Sample.B];
     Formatted "z" [Sample.B]]
  = Return
      {| out := [(Open Sample.A, "<b>"); (Text, "x"); (Open Sample.B, "<i>");
                 (Text, "y"); (Suspend Sample.B, "</i>");
                 (Close Sample.A, "</b>"); (Resume Sample.B, "<i>");
                 (Text, "z"); (Close Sample.B, "</i>")];
         stack := [] |}
  ∧ getHtml annotationRenderers Sample.heap Sample.norm
      (Some {| start := 1%Z; end_ := Some 2%Z |})
      [Formatted "x" [Sample.A]; Formatted "y" [Sample.A; Sample.B];
       Formatted "z" [Sample.B]]
    = Return "<b>x<i>y</i></b><i>z</i>"
  ∧ texts [(Open Sample.A, "<b>"); (Text, "x"); (Open Sample.B, "<i>");
           (Text, "y"); (Suspend Sample.B, "</i>"); (Close Sample.A, "</b>");
           (Resume Sample.B, "<i>"); (Text, "z"); (Close Sample.B, "</i>")]
    = [(Text, "x"); (Text, "y"); (Text, "z")].
Proof.
  assert (pass annotationRenderers Sample.heap
            [Formatted "x" [Sample.A]; Formatted "y" [Sample.A; Sample.B];
             Formatted "z" [Sample.B]]
          = Return
              {| out := [(Open Sample.A, "<b>"); (Text, "x");
                         (Open Sample.B, "<i>"); (Text, "y");
                         (Suspend Sample.B, "</i>"); (Close Sample.A, "</b>");
                         (Resume Sample.B, "<i>"); (Text, "z");
                         (Close Sample.B, "</i>")];
                 stack := [] |}) as Hpass.
  { vm_compute. reflexivity. }
  destruct (range_is_not_read annotationRenderers Sample.heap Sample.norm
              {| start := 1%Z; end_ := Some 2%Z |}
              [Formatted "x" [Sample.A]; Formatted "y" [Sample.A; Sample.B];
               Formatted "z" [Sample.B]]) as (_ & _ & Hdata).
  destruct (Hdata _ Hpass) as [Hhtml Htexts].
  split_and!; [exact Hpass| |exact Htexts].
  refine (eq_trans Hhtml _). vm_compute. reflexivity.
Defined.

(** C10.  The stack does come to hold an annotation whose type is not the
    key of an entry of the table: the type [constructor] is the name of a
    member that the table inherits, the guard [type in renderers] lets
    the annotation [K] of that type be pushed, and the reads without a
    test in the buried-close path, when [K] lies above the annotation
    that is closed, find that member and not a renderer: [undefined] is
    appended where a close and an open markup are expected. *)
Lemma inherited_type_is_stacked :
  annotationRenderers !! type (Sample.heap Sample.K) = None
  ∧ run annotationRenderers Sample.heap
      [Request "open" Sample.A; Request "open" Sample.K]
      {| out := []; stack := [] |}
    = Return (tt, {| out := [(Open Sample.A, "<b>");
                             (Open Sample.K, "undefined")];
                     stack := [Sample.A; Sample.K] |})
  ∧ renderAnnotation annotationRenderers Sample.heap "close" Sample.A
      [Sample.A; Sample.K]
    = Return ([(Suspend Sample.K, "undefined"); (Close Sample.A, "</b>");
               (Resume Sample.K, "undefined")],
              [Sample.K])
  ∧ getHtml annotationRenderers Sample.heap Sample.norm None
      [Formatted "x" [Sample.A; Sample.K]; Formatted "y" [Sample.K]]
    = Return "<b>undefinedxundefined</b>undefinedyundefined".
Proof. split_and!; vm_compute; reflexivity. Qed.

(** X16.  After any number of the requests of a pass, the stack holds only
    annotations whose type the guard [type in renderers] admits, the key
    of an entry or the name of an inherited member; so no request made
    then, from either loop over the part of the stack above a buried
    annotation, reads a member of [undefined], and the call never ends in
    a type error. *)
Theorem stack_holds_registered renderers heap normalize range data
    before after s :
  program data = before ++ after →
  run renderers heap before {| out := []; stack := [] |} = Return (tt, s) →
  Forall (registered renderers heap) (stack s)
  ∧ (∀ bias a, renderAnnotation renderers heap bias a (stack s) ≠ Throw TypeError)
  ∧ getHtml renderers heap normalize range data ≠ Throw TypeError.
Proof.
  intros Hprogram Hrun.
  assert (Forall (registered renderers heap) (stack s)) as Hall.
  { by apply (run_registered _ _ before {| out := []; stack := [] |}). }
  split_and!; [done| |].
  - intros bias a. by apply renderAnnotation_no_TypeError.
  - rewrite getHtml_pass, pass_program.
    pose proof (run_no_TypeError renderers heap (program data)
                  {| out := []; stack := [] |}) as Hno.
    destruct (run _ _ (program data) _) as [[[] s']|e]; [done|].
    intros [= ->]. by apply Hno.
Qed.

(** X16 on the three units [[x, A]], [[y, A, B]], [[z, B]], after the first
    three requests. *)
Lemma stack_holds_registered_witness :
  Forall (registered annotationRenderers Sample.heap) [1; 2]
  ∧ (∀ bias a,
       renderAnnotation annotationRenderers Sample.heap bias a [1; 2]
       ≠ Throw TypeError)
  ∧ getHtml annotationRenderers Sample.heap Sample.norm None
      [Formatted "x" [Sample.A]; Formatted "y" [Sample.A; Sample.B];
       Formatted "z" [Sample.B]]
    ≠ Throw TypeError.
Proof.
  apply (stack_holds_registered annotationRenderers Sample.heap Sample.norm
           None
           [Formatted "x" [Sample.A]; Formatted "y" [Sample.A; Sample.B];
            Formatted "z" [Sample.B]]
           [Request "open" 1; Character "x"; Request "open" 2]
           [Character "y"; Request "close" 1; Character "z";
            Request "close" 2]
           {| out := [(Open 1, "<b>"); (Text, "x"); (Open 2, "<i>")];
              stack := [1; 2] |}).
  - vm_compute. reflexivity.
  - vm_compute. reflexivity.
Defined.

(** C4, as amended.  Between two consecutive units (the first unit follows
    the empty string, which is plain) the body of the loop makes the
    requests of [difference]: a close request for each annotation of the
    previous unit that is not, by identity, in the current unit, in the
    order of the previous unit, then an open request for each annotation of
    the current unit that is not in the previous unit, in the order of the
    current unit, a plain unit having no annotations.  An annotation that
    is in both units is the subject of no request there. *)
Theorem transition_requests renderers heap left right data s :
  transition renderers heap left right s
  = run renderers heap (difference left right) s
  ∧ loop renderers heap left data s = run renderers heap (script left data) s
  ∧ difference left right
    = map (Request "close")
          (filter (.∉ annotations_of right) (annotations_of left))
      ++ map (Request "open")
             (filter (.∉ annotations_of left) (annotations_of right))
  ∧ (∀ chr, annotations_of (Plain chr) = [])
  ∧ (∀ a, inArray a (annotations_of right) = (-1)%Z ↔ a ∉ annotations_of right)
  ∧ ∀ bias a,
      a ∈ annotations_of left → a ∈ annotations_of right →
      Request bias a ∉ difference left right.
Proof.
  split_and!.
  - apply transition_difference.
  - apply loop_script.
  - done.
  - done.
  - intros a. apply inArray_minus_one.
  - intros bias a Hl Hr. unfold difference.
    rewrite elem_of_app, !list_elem_of_fmap.
    intros [(x & [= _ <-] & [Hx _]%list_elem_of_filter)
           |(x & [= _ <-] & [Hx _]%list_elem_of_filter)]; done.
Qed.

(** C4 on the units [[y, A, B]] and [[z, B]]: the only request is the close
    of [A]. *)
Lemma transition_requests_witness :
  difference (Formatted "y" [Sample.A; Sample.B]) (Formatted "z" [Sample.B])
  = [Request "close" Sample.A]
  ∧ (Request "close" Sample.B
     ∉ difference (Formatted "y" [Sample.A; Sample.B])
         (Formatted "z" [Sample.B]))
  ∧ transition annotationRenderers Sample.heap
      (Formatted "y" [Sample.A; Sample.B]) (Formatted "z" [Sample.B])
      {| out := []; stack := [Sample.A; Sample.B] |}
    = run annotationRenderers Sample.heap [Request "close" Sample.A]
        {| out := []; stack := [Sample.A; Sample.B] |}.
Proof.
  destruct (transition_requests annotationRenderers Sample.heap
              (Formatted "y" [Sample.A; Sample.B]) (Formatted "z" [Sample.B])
              [] {| out := []; stack := [Sample.A; Sample.B] |})
    as (Hrun & _ & _ & _ & _ & Hkept).
  split_and!.
  - vm_compute. reflexivity.
  - apply Hkept.
    + apply (bool_decide_unpack (Sample.B ∈ [Sample.A; Sample.B])).
      vm_compute. exact I.
    + apply (bool_decide_unpack (Sample.B ∈ [Sample.B])).
      vm_compute. exact I.
  - exact Hrun.
Defined.

(** C4 as stated fails: between the units [[y, A, B]] and [[z, B]] the
    annotation [B] is in both units and yet its close and open markup is
    produced, around the close markup of [A]. *)
Lemma kept_annotation_gets_markup :
  Sample.B ∈ annotations_of (Formatted "y" [Sample.A; Sample.B])
  ∧ Sample.B ∈ annotations_of (Formatted "z" [Sample.B])
  ∧ transition annotationRenderers Sample.heap
      (Formatted "y" [Sample.A; Sample.B]) (Formatted "z" [Sample.B])
      {| out := []; stack := [Sample.A; Sample.B] |}
    = Return (tt, {| out := [(Suspend Sample.B, "</i>");
                             (Close Sample.A, "</b>");
                             (Resume Sample.B, "<i>")];
                     stack := [Sample.B] |}).
Proof. split_and!; [set_solver|set_solver|]. vm_compute. reflexivity. Qed.

Lemma own_registered renderers heap a :
  is_Some (renderers !! type (heap a)) → registered renderers heap a.
Proof. intros [rule Hrule]. unfold registered, member. rewrite Hrule. eauto. Qed.

(** C2, as amended.  A close request for an annotation whose type has an
    entry in the table and that is nowhere on the stack throws the invalid
    stack error; when a pass comes to such a request, [getHtml] ends with
    that error and returns no string.  A close request for an annotation
    whose type the guard [type in renderers] does not admit returns no
    markup and leaves the stack, and the pass goes on from the same
    local variables. *)
Theorem close_of_absent_throws renderers heap normalize (a : ref) :
  (is_Some (renderers !! type (heap a)) →
   (∀ stack,
      a ∉ stack →
      renderAnnotation renderers heap "close" a stack = Throw InvalidStackError)
   ∧ (∀ range data before after s,
        program data = before ++ Request "close" a :: after →
        run renderers heap before {| out := []; stack := [] |}
        = Return (tt, s) →
        a ∉ stack s →
        getHtml renderers heap normalize range data = Throw InvalidStackError))
  ∧ (member renderers (type (heap a)) = None →
     (∀ stack,
        renderAnnotation renderers heap "close" a stack = Return ([], stack))
     ∧ (∀ after s,
          run renderers heap (Request "close" a :: after) s
          = run renderers heap after s)).
Proof.
  split.
  - intros Hreg%own_registered. split.
    + intros stack Hnot. by apply renderAnnotation_close_absent.
    + intros range data before after s Hprogram Hrun Hnot.
      rewrite getHtml_pass, pass_program, Hprogram.
      erewrite run_app_Return by done. cbn [run].
      rewrite pass_bind_unfold. by erewrite exec_close_absent.
  - intros Hnone. split.
    + intros stack. by apply renderAnnotation_unregistered.
    + intros after s. apply run_cons_Return. cbn.
      by apply render_unregistered.
Qed.

(** C2 on the bold annotation [A]: absent from a stack that holds an equal
    annotation, and closed twice by the units [[x, A]], [[<, A, A]]; and on
    the annotation [U], whose type the guard does not admit. *)
Lemma close_of_absent_throws_witness :
  is_Some (annotationRenderers !! type (Sample.heap Sample.A))
  ∧ renderAnnotation annotationRenderers Sample.heap "close" Sample.A
      [Sample.B; Sample.A']
    = Throw InvalidStackError
  ∧ getHtml annotationRenderers Sample.heap Sample.norm None
      [Formatted "x" [Sample.A]; Formatted "<" [Sample.A; Sample.A]]
    = Throw InvalidStackError
  ∧ member annotationRenderers (type (Sample.heap Sample.U)) = None
  ∧ renderAnnotation annotationRenderers Sample.heap "close" Sample.U
      [Sample.B]
    = Return ([], [Sample.B]).
Proof.
  assert (is_Some (annotationRenderers !! type (Sample.heap Sample.A)))
    as Hown.
  { vm_compute. eexists. reflexivity. }
  assert (member annotationRenderers (type (Sample.heap Sample.U)) = None)
    as Hnone.
  { vm_compute. reflexivity. }
  destruct (close_of_absent_throws annotationRenderers Sample.heap
              Sample.norm Sample.A) as [Hthrows _].
  destruct (Hthrows Hown) as [Hone Hcall].
  destruct (close_of_absent_throws annotationRenderers Sample.heap
              Sample.norm Sample.U) as [_ Hsilent].
  destruct (Hsilent Hnone) as [Hskip _].
  split_and!.
  - exact Hown.
  - apply Hone. apply (bool_decide_unpack (Sample.A ∉ [Sample.B; Sample.A'])).
    vm_compute. exact I.
  - apply (Hcall None _
             [Request "open" Sample.A; Character "x"; Character "<";
              Request "close" Sample.A]
             []
             {| out := [(Open 1, "<b>"); (Text, "x"); (Text, "&lt;");
                        (Close 1, "</b>")];
                stack := [] |}).
    + vm_compute. reflexivity.
    + vm_compute. reflexivity.
    + apply not_elem_of_nil.
  - exact Hnone.
  - apply Hskip.
Defined.

(** C2 as stated fails for a type that the guard [type in renderers] does
    not admit: the close request for such an annotation, which is never on
    the stack, returns the empty string and the call returns its output. *)
Lemma close_of_unregistered_returns :
  (Sample.U ∉ ([] : list ref))
  ∧ renderAnnotation annotationRenderers Sample.heap "close" Sample.U []
    = Return ([], [])
  ∧ program [Formatted "x" [Sample.U]]
    = [Request "open" Sample.U; Character "x"; Request "close" Sample.U]
  ∧ getHtml annotationRenderers Sample.heap Sample.norm None
      [Formatted "x" [Sample.U]]
    = Return "x".
Proof.
  split_and!; [apply not_elem_of_nil| | |]; vm_compute; reflexivity.
Qed.

(** C6.  The type [constructor] has no entry in the table, yet it is the
    name of a member that the table inherits and the guard
    [type in renderers] admits it: the open request for the annotation [K]
    of that type pushes it and appends [undefined], the close request pops
    it and appends [undefined], and the character that carries it is not
    rendered as the plain character is. *)
Lemma inherited_type_is_rendered :
  annotationRenderers !! type (Sample.heap Sample.K) = None
  ∧ renderAnnotation annotationRenderers Sample.heap "open" Sample.K []
    = Return ([(Open Sample.K, "undefined")], [Sample.K])
  ∧ renderAnnotation annotationRenderers Sample.heap "close" Sample.K
      [Sample.K]
    = Return ([(Close Sample.K, "undefined")], [])
  ∧ getHtml annotationRenderers Sample.heap Sample.norm None
      [Formatted "x" [Sample.K]]
    = Return "undefinedxundefined"
  ∧ getHtml annotationRenderers Sample.heap Sample.norm None [Plain "x"]
    = Return "x".
Proof. split_and!; vm_compute; reflexivity. Qed.

(** X14.  An annotation whose type the guard [type in renderers] does not
    admit, neither the key of an entry nor the name of an inherited
    member: a request for it, open or close, returns no markup and leaves
    the stack as it is; taking the annotation off the units that carry it
    changes neither the pieces of the output nor the result of [getHtml];
    a character that carries only this annotation is rendered as the plain
    character is. *)
Theorem unregistered_is_silent renderers heap normalize (a : ref) :
  member renderers (type (heap a)) = None →
  (∀ bias stack,
     renderAnnotation renderers heap bias a stack = Return ([], stack))
  ∧ (∀ data,
       pass renderers heap data = pass renderers heap (map (without a) data))
  ∧ (∀ range data,
       getHtml renderers heap normalize range data
       = getHtml renderers heap normalize range (map (without a) data))
  ∧ (∀ range chr,
       getHtml renderers heap normalize range [Formatted chr [a]]
       = Return (escape chr)
       ∧ getHtml renderers heap normalize range [Plain chr]
         = Return (escape chr)).
Proof.
  intros Hnone.
  assert (∀ range chr,
    getHtml renderers heap normalize range [Plain chr] = Return (escape chr))
    as Hplain.
  { intros range chr.
    pose proof (getHtml_plain renderers heap normalize range [chr]) as Hone.
    cbn [map foldr] in Hone. by rewrite append_empty in Hone. }
  split_and!.
  - intros bias stack. by apply renderAnnotation_unregistered.
  - intros data. by apply pass_without.
  - intros range data. by rewrite !getHtml_pass, <-pass_without.
  - intros range chr. split; [|done].
    rewrite getHtml_pass, (pass_without _ _ a Hnone). cbn [map without].
    rewrite filter_cons_False by (intros H; by apply H). rewrite filter_nil.
    specialize (Hplain range chr). rewrite getHtml_pass in Hplain.
    by rewrite <-Hplain.
Qed.

(** X14 on the annotation [U], whose type is unknown. *)
Lemma unregistered_is_silent_witness :
  member annotationRenderers (type (Sample.heap Sample.U)) = None
  ∧ renderAnnotation annotationRenderers Sample.heap "open" Sample.U [Sample.A]
    = Return ([], [Sample.A])
  ∧ getHtml annotationRenderers Sample.heap Sample.norm None
      [Formatted "&" [Sample.U]]
    = Return "&amp;".
Proof.
  assert (member annotationRenderers (type (Sample.heap Sample.U)) = None)
    as Hnone.
  { vm_compute. reflexivity. }
  destruct (unregistered_is_silent annotationRenderers Sample.heap
              Sample.norm Sample.U Hnone) as (Hone & _ & _ & Hchr).
  split_and!.
  - exact Hnone.
  - apply Hone.
  - apply (Hchr None "&").
Defined.

(** C1.  A close request for an annotation [A] that is on the stack of a
    pass (the stack that any requests have built from the empty one), not
    as its innermost element: the pieces are the close markup of the
    annotations above [A] from the innermost outwards, the close markup of
    [A], then the open markup of the annotations above [A] in the order of
    the stack; [A] leaves the stack and the others stay.  For the units
    [[x, A]], [[y, A, B]], [[z, B]] the passage from the second to the third
    gives close [B], close [A], open [B]. *)
Theorem buried_close_reopens renderers heap steps s (A : ref)
    (below above : list ref) :
  run renderers heap steps {| out := []; stack := [] |} = Return (tt, s) →
  stack s = below ++ A :: above →
  A ∉ below →
  last (stack s) ≠ Some A →
  renderAnnotation renderers heap "close" A (stack s)
  = Return (map (piece renderers heap Suspend close) (reverse above)
              ++ piece renderers heap Close close A
              :: map (piece renderers heap Resume open) above,
            below ++ above)
  ∧ ∀ B x y z,
      A ≠ B →
      registered renderers heap B →
      transition renderers heap (Formatted y [A; B]) (Formatted z [B])
        {| out := []; stack := [A; B] |}
      = Return (tt, {| out := [piece renderers heap Suspend close B;
                               piece renderers heap Close close A;
                               piece renderers heap Resume open B];
                       stack := [B] |})
      ∧ pass renderers heap
          [Formatted x [A]; Formatted y [A; B]; Formatted z [B]]
        = Return {| out := [piece renderers heap Open open A;
                            (Text, escape x);
                            piece renderers heap Open open B;
                            (Text, escape y);
                            piece renderers heap Suspend close B;
                            piece renderers heap Close close A;
                            piece renderers heap Resume open B;
                            (Text, escape z);
                            piece renderers heap Close close B];
                    stack := [] |}.
Proof.
  intros Hrun Hstack Hbelow Hlast.
  assert (Forall (registered renderers heap) (stack s)) as Hall.
  { by apply (run_registered _ _ steps {| out := []; stack := [] |}). }
  rewrite Hstack in Hall, Hlast |- *.
  apply Forall_app in Hall as [_ [HA Habove]%Forall_cons].
  split.
  { rewrite renderAnnotation_close_buried by done. by rewrite decide_True. }
  intros B x y z Hne HB.
  assert (difference (Formatted y [A; B]) (Formatted z [B]) = [Request "close" A])
    as Hdiff.
  { unfold difference. cbn [annotations_of]. by filters. }
  split.
  - rewrite transition_difference, Hdiff.
    run_close (@nil ref) [B]. done.
  - apply pass_Return. unfold program. cbn [script last chr_of closing].
    rewrite Hdiff. unfold difference. cbn [annotations_of]. filters.
    cbn [map app].
    run_open. run_character. run_open. run_character.
    run_close (@nil ref) [B]. run_character. run_close (@nil ref) (@nil ref).
    done.
Qed.

(** C1 on the stack [A], [B] that two open requests build. *)
Lemma buried_close_reopens_witness :
  run annotationRenderers Sample.heap
    [Request "open" Sample.A; Request "open" Sample.B]
    {| out := []; stack := [] |}
  = Return (tt, {| out := [(Open Sample.A, "<b>"); (Open Sample.B, "<i>")];
                   stack := [Sample.A; Sample.B] |})
  ∧ (Sample.A ∉ @nil ref)
  ∧ last [Sample.A; Sample.B] ≠ Some Sample.A
  ∧ renderAnnotation annotationRenderers Sample.heap "close" Sample.A
      [Sample.A; Sample.B]
    = Return ([(Suspend Sample.B, "</i>"); (Close Sample.A, "</b>");
               (Resume Sample.B, "<i>")],
              [Sample.B])
  ∧ getHtml annotationRenderers Sample.heap Sample.norm None
      [Formatted "x" [Sample.A]; Formatted "y" [Sample.A; Sample.B];
       Formatted "z" [Sample.B]]
    = Return "<b>x<i>y</i></b><i>z</i>".
Proof.
  assert (run annotationRenderers Sample.heap
            [Request "open" Sample.A; Request "open" Sample.B]
            {| out := []; stack := [] |}
          = Return (tt, {| out := [(Open Sample.A, "<b>");
                                   (Open Sample.B, "<i>")];
                           stack := [Sample.A; Sample.B] |})) as Hrun.
  { vm_compute. reflexivity. }
  assert (Sample.A ∉ @nil ref) as Hbelow by apply not_elem_of_nil.
  assert (last [Sample.A; Sample.B] ≠ Some Sample.A) as Hlast.
  { vm_compute. discriminate. }
  destruct (buried_close_reopens annotationRenderers Sample.heap _ _
              Sample.A [] [Sample.B] Hrun eq_refl Hbelow Hlast)
    as [Hone Hthree].
  split_and!; [exact Hrun|exact Hbelow|exact Hlast| |].
  - refine (eq_trans Hone _). vm_compute. reflexivity.
  - destruct (Hthree Sample.B "x" "y" "z") as [_ Hpass].
    + discriminate.
    + vm_compute. eexists. reflexivity.
    + rewrite getHtml_pass, Hpass. vm_compute. reflexivity.
Defined.

(** C3, as amended.  When the last unit is an array, what follows the
    rendering of its character is the close requests for its annotations,
    one each, in the order in which the unit lists them; the stack is not
    read to order them.  When that order is from the innermost annotation
    outwards (the stack is the reverse of the registered annotations of the
    unit), the requests add the close markup of these annotations in that
    order and nothing else, and empty the stack. *)
Theorem trailing_closes_in_listed_order renderers heap normalize range data
    chr annotations s :
  last data = Some (Formatted chr annotations) →
  loop renderers heap (Plain EmptyString) data {| out := []; stack := [] |}
  = Return (tt, s) →
  (∃ before, out s = before ++ [(Text, escape chr)])
  ∧ pass renderers heap data
    = match forEach (render renderers heap "close") annotations s with
      | Return (_, s') => Return s'
      | Throw e => Throw e
      end
  ∧ (stack s = reverse (live renderers heap annotations) →
     pass renderers heap data
     = Return {| out := out s
                          ++ map (piece renderers heap Close close)
                                 (live renderers heap annotations);
                 stack := [] |}
     ∧ getHtml renderers heap normalize range data
       = Return (flatten (out s)
                   +:+ flatten (map (piece renderers heap Close close)
                                    (live renderers heap annotations)))).
Proof.
  intros Hlast Hloop.
  assert (pass renderers heap data
    = match forEach (render renderers heap "close") annotations s with
      | Return (_, s') => Return s'
      | Throw e => Throw e
      end) as Hpass.
  { unfold pass. rewrite pass_bind_unfold, Hloop, Hlast. cbn [closeRemaining].
    by destruct (forEach _ annotations s) as [[[] s']|e]. }
  split_and!; [|done|].
  - apply last_Some in Hlast as [data' ->].
    rewrite loop_script, script_snoc, app_assoc in Hloop.
    apply run_app_inv in Hloop as (s2 & _ & Hemit).
    cbn in Hemit. injection Hemit as <-. by eexists.
  - intros Hstack. rewrite getHtml_pass, Hpass, <-run_requests.
    rewrite (run_close_reversed _ _ _ []) by done.
    split; [done|]. cbn [out]. by rewrite flatten_app.
Qed.

(** C3 on the units [[x, A]], [[y, B, A]]: the last unit lists the innermost
    annotation first. *)
Lemma trailing_closes_in_listed_order_witness :
  last [Formatted "x" [Sample.A]; Formatted "y" [Sample.B; Sample.A]]
  = Some (Formatted "y" [Sample.B; Sample.A])
  ∧ loop annotationRenderers Sample.heap (Plain EmptyString)
      [Formatted "x" [Sample.A]; Formatted "y" [Sample.B; Sample.A]]
      {| out := []; stack := [] |}
    = Return (tt, {| out := [(Open 1, "<b>"); (Text, "x");
                             (Open 2, "<i>"); (Text, "y")];
                     stack := [Sample.A; Sample.B] |})
  ∧ getHtml annotationRenderers Sample.heap Sample.norm None
      [Formatted "x" [Sample.A]; Formatted "y" [Sample.B; Sample.A]]
    = Return "<b>x<i>y</i></b>".
Proof.
  assert (last [Formatted "x" [Sample.A]; Formatted "y" [Sample.B; Sample.A]]
          = Some (Formatted "y" [Sample.B; Sample.A])) as Hlast
    by reflexivity.
  assert (loop annotationRenderers Sample.heap (Plain EmptyString)
            [Formatted "x" [Sample.A]; Formatted "y" [Sample.B; Sample.A]]
            {| out := []; stack := [] |}
          = Return (tt, {| out := [(Open 1, "<b>"); (Text, "x");
                                   (Open 2, "<i>"); (Text, "y")];
                           stack := [Sample.A; Sample.B] |})) as Hloop.
  { vm_compute. reflexivity. }
  destruct (trailing_closes_in_listed_order annotationRenderers Sample.heap
              Sample.norm None _ _ _ _ Hlast Hloop) as (_ & _ & Hinner).
  split_and!; [exact Hlast|exact Hloop|].
  destruct Hinner as [_ Hhtml].
  - vm_compute. reflexivity.
  - refine (eq_trans Hhtml _). vm_compute. reflexivity.
Defined.

(** C3 as stated fails: for the single unit [[x, A, B]] the stack after the
    character is [A], [B] with [B] innermost, and what follows the character
    is close [B], close [A], open [B], close [B]. *)
Lemma trailing_close_reopens :
  loop annotationRenderers Sample.heap (Plain EmptyString)
    [Formatted "x" [Sample.A; Sample.B]] {| out := []; stack := [] |}
  = Return (tt, {| out := [(Open Sample.A, "<b>"); (Open Sample.B, "<i>");
                           (Text, "x")];
                   stack := [Sample.A; Sample.B] |})
  ∧ pass annotationRenderers Sample.heap [Formatted "x" [Sample.A; Sample.B]]
    = Return {| out := [(Open Sample.A, "<b>"); (Open Sample.B, "<i>");
                        (Text, "x");
                        (Suspend Sample.B, "</i>"); (Close Sample.A, "</b>");
                        (Resume Sample.B, "<i>"); (Close Sample.B, "</i>")];
                stack := [] |}
  ∧ getHtml annotationRenderers Sample.heap Sample.norm None
      [Formatted "x" [Sample.A; Sample.B]]
    = Return "<b><i>x</i></b><i></i>"
  ∧ getHtml annotationRenderers Sample.heap Sample.norm None
      [Formatted "x" [Sample.A; Sample.B]]
    ≠ Return "<b><i>x</i></b>".
Proof. split_and!; vm_compute; (reflexivity || discriminate). Qed.

(** C5.  Two annotation objects with the same type and data are two
    annotations: a close request for one that is not on the stack throws
    whether or not the other is there, and between a unit that carries one
    and a unit that carries the other, the first is closed and the second
    opened. *)
Theorem identity_not_structure renderers heap (a b : ref) :
  a ≠ b →
  heap a = heap b →
  registered renderers heap a →
  (∀ stack,
     a ∉ stack →
     renderAnnotation renderers heap "close" a stack = Throw InvalidStackError)
  ∧ renderAnnotation renderers heap "close" a [b] = Throw InvalidStackError
  ∧ inArray a [b] = (-1)%Z
  ∧ ∀ x y,
      difference (Formatted x [a]) (Formatted y [b])
      = [Request "close" a; Request "open" b]
      ∧ pass renderers heap [Formatted x [a]; Formatted y [b]]
        = Return {| out := [piece renderers heap Open open a;
                            (Text, escape x);
                            piece renderers heap Close close a;
                            piece renderers heap Open open b;
                            (Text, escape y);
                            piece renderers heap Close close b];
                    stack := [] |}.
Proof.
  intros Hne Hsame Ha.
  assert (registered renderers heap b) as Hb.
  { unfold registered in *. by rewrite <-Hsame. }
  assert (∀ x y, difference (Formatted x [a]) (Formatted y [b])
                 = [Request "close" a; Request "open" b]) as Hdiff.
  { intros x y. unfold difference. cbn [annotations_of]. by filters. }
  split_and!.
  - intros stack Hnot. by apply renderAnnotation_close_absent.
  - apply renderAnnotation_close_absent; [done|done|set_solver].
  - apply inArray_absent. set_solver.
  - intros x y. split; [done|].
    apply pass_Return. unfold program. cbn [script last chr_of closing].
    rewrite Hdiff. unfold difference. cbn [annotations_of]. filters.
    cbn [map app].
    run_open. run_character. run_close (@nil ref) (@nil ref).
    run_open. run_character. run_close (@nil ref) (@nil ref).
    done.
Qed.

(** C5 on the two bold annotations [A] and [A'] of the sample document. *)
Lemma identity_not_structure_witness :
  Sample.A ≠ Sample.A'
  ∧ Sample.heap Sample.A = Sample.heap Sample.A'
  ∧ registered annotationRenderers Sample.heap Sample.A
  ∧ renderAnnotation annotationRenderers Sample.heap "close" Sample.A
      [Sample.A']
    = Throw InvalidStackError
  ∧ getHtml annotationRenderers Sample.heap Sample.norm None
      [Formatted "x" [Sample.A]; Formatted "y" [Sample.A']]
    = Return "<b>x</b><b>y</b>".
Proof.
  assert (Sample.A ≠ Sample.A') as Hne by discriminate.
  assert (Sample.heap Sample.A = Sample.heap Sample.A') as Hsame
    by reflexivity.
  assert (registered annotationRenderers Sample.heap Sample.A) as Hreg.
  { vm_compute. eexists. reflexivity. }
  destruct (identity_not_structure annotationRenderers Sample.heap
              Sample.A Sample.A' Hne Hsame Hreg) as (_ & Hone & _ & Htwo).
  split_and!; [exact Hne|exact Hsame|exact Hreg|exact Hone|].
  destruct (Htwo "x" "y") as [_ Hpass].
  rewrite getHtml_pass, Hpass. vm_compute. reflexivity.
Defined.

(** Whatever the data, the pieces of a pass that returns are brackets that
    lead to the stack the pass ends with, and every annotation is pushed as
    many times as it is removed or left on that stack. *)
Lemma pass_nested renderers heap data s :
  pass renderers heap data = Return s →
  nest [] (out s) = Some (stack s)
  ∧ ∀ a, pushes a (out s) = (removals a (out s) + occurrences a (stack s))%nat.
Proof.
  intros Hrun%pass_Return_inv. split.
  - by apply (run_nest renderers heap [] (program data)
                {| out := []; stack := [] |}).
  - intros a.
    by apply (run_pushes renderers heap a (program data)
                {| out := []; stack := [] |}).
Qed.

(** X15.  When no unit lists an annotation twice, the call
    returns; every annotation pushed on the stack during the pass is
    removed from it once for each push and the stack is empty at the end;
    the output has as many open as close markups of each annotation, and
    its markup is properly nested. *)
Theorem distinct_pass_is_balanced renderers heap normalize range data :
  distinct data →
  ∃ s,
    pass renderers heap data = Return s
    ∧ getHtml renderers heap normalize range data = Return (flatten (out s))
    ∧ stack s = []
    ∧ nest [] (out s) = Some []
    ∧ ∀ a, pushes a (out s) = removals a (out s)
           ∧ opens a (out s) = closes a (out s).
Proof.
  intros Hd.
  destruct (program_distinct renderers heap data Hd) as (s & Hrun & Hempty).
  apply pass_Return in Hrun as Hpass.
  destruct (pass_nested _ _ _ _ Hpass) as [Hnest Hpush].
  rewrite Hempty in Hnest.
  exists s. split_and!; [done| |done|done|].
  - by rewrite getHtml_pass, Hpass.
  - intros a. split.
    + rewrite Hpush, Hempty. unfold occurrences. cbn. lia.
    + pose proof (nest_balance _ _ _ a Hnest) as Hbal.
      unfold occurrences in Hbal. cbn in Hbal. lia.
Qed.

(** X15 on the three units [[x, A]], [[y, A, B]], [[z, B]]. *)
Lemma distinct_pass_is_balanced_witness :
  distinct [Formatted "x" [Sample.A]; Formatted "y" [Sample.A; Sample.B];
            Formatted "z" [Sample.B]]
  ∧ ∃ s,
      pass annotationRenderers Sample.heap
        [Formatted "x" [Sample.A]; Formatted "y" [Sample.A; Sample.B];
         Formatted "z" [Sample.B]]
      = Return s
      ∧ getHtml annotationRenderers Sample.heap Sample.norm None
          [Formatted "x" [Sample.A]; Formatted "y" [Sample.A; Sample.B];
           Formatted "z" [Sample.B]]
        = Return (flatten (out s))
      ∧ stack s = []
      ∧ nest [] (out s) = Some []
      ∧ ∀ a, pushes a (out s) = removals a (out s)
             ∧ opens a (out s) = closes a (out s).
Proof.
  assert (distinct [Formatted "x" [Sample.A];
                    Formatted "y" [Sample.A; Sample.B];
                    Formatted "z" [Sample.B]]) as Hd.
  { apply (bool_decide_unpack
             (Forall (λ unit, NoDup (annotations_of unit))
                [Formatted "x" [Sample.A];
                 Formatted "y" [Sample.A; Sample.B];
                 Formatted "z" [Sample.B]])).
    vm_compute. exact I. }
  split; [exact Hd|].
  exact (distinct_pass_is_balanced annotationRenderers Sample.heap
           Sample.norm None _ Hd).
Defined.

(** C7.  On a unit that lists an annotation twice the loop that closes
    the remaining tags at the end of the content leaves one open: for
    [[x, A, A]], [[<, A]] the call returns, [A] is still on the stack and
    one of its two open tags is not closed. *)
Lemma duplicate_leaves_tag_open :
  pass annotationRenderers Sample.heap
    [Formatted "x" [Sample.A; Sample.A]; Formatted "<" [Sample.A]]
  = Return {| out := [(Open Sample.A, "<b>"); (Open Sample.A, "<b>");
                      (Text, "x"); (Text, "&lt;"); (Close Sample.A, "</b>")];
              stack := [Sample.A] |}
  ∧ getHtml annotationRenderers Sample.heap Sample.norm None
      [Formatted "x" [Sample.A; Sample.A]; Formatted "<" [Sample.A]]
    = Return "<b><b>x&lt;</b>"
  ∧ opens Sample.A [(Open Sample.A, "<b>"); (Open Sample.A, "<b>");
                    (Text, "x"); (Text, "&lt;"); (Close Sample.A, "</b>")]
    = 2%nat
  ∧ closes Sample.A [(Open Sample.A, "<b>"); (Open Sample.A, "<b>");
                     (Text, "x"); (Text, "&lt;"); (Close Sample.A, "</b>")]
    = 1%nat
  ∧ nest [] [(Open Sample.A, "<b>"); (Open Sample.A, "<b>");
             (Text, "x"); (Text, "&lt;"); (Close Sample.A, "</b>")]
    ≠ Some [].
Proof. split_and!; vm_compute; (reflexivity || discriminate). Qed.

(** * Further properties of the renderer *)

(** ** Auxiliary facts *)

Section Further.

Variable renderers : gmap string RenderRule.
Variable heap : ref → Annotation.

#[local] Abbreviation registered := (registered renderers heap).
#[local] Abbreviation renderAnnotation := (renderAnnotation renderers heap).
#[local] Abbreviation exec := (exec renderers heap).
#[local] Abbreviation run := (run renderers heap).
#[local] Abbreviation pass := (pass renderers heap).
#[local] Abbreviation piece := (piece renderers heap).
#[local] Abbreviation live := (live renderers heap).

(** When a request throws from a stack of registered annotations. *)
Lemma renderAnnotation_Throw bias a stack e :
  Forall registered stack →
  renderAnnotation bias a stack = Throw e →
  e = InvalidStackError ∧ bias ≠ "open" ∧ registered a ∧ a ∉ stack.
Proof.
  intros Hall Hthrow.
  destruct (member renderers (type (heap a))) as [rule|] eqn:Hrule.
  2: { by rewrite renderAnnotation_unregistered in Hthrow. }
  assert (registered a) as Hreg by by exists rule.
  destruct (decide (bias = "open")) as [->|Hbias].
  { by rewrite renderAnnotation_open in Hthrow. }
  destruct (decide (a ∈ stack)) as [Hin|Hnot].
  2: { rewrite renderAnnotation_close_absent in Hthrow by done.
       by injection Hthrow as <-. }
  destruct (decide (last stack = Some a)) as [Htop|Htop].
  { apply last_Some in Htop as [below ->].
    by rewrite renderAnnotation_close_top in Hthrow. }
  apply list_elem_of_split_l in Hin as (below & above & -> & Hbelow).
  rewrite renderAnnotation_close_buried in Hthrow by done.
  apply Forall_app in Hall as [_ [_ Habove]%Forall_cons].
  by rewrite decide_True in Hthrow.
Qed.

(** A run that throws has reached a request that throws. *)
Lemma run_Throw_inv steps s e :
  run steps s = Throw e →
  ∃ before bias a after s',
    steps = before ++ Request bias a :: after
    ∧ run before s = Return (tt, s')
    ∧ renderAnnotation bias a (stack s') = Throw e.
Proof.
  revert s. induction steps as [|step rest IH]; intros s Hthrow; [done|].
  change (run (step :: rest) s) with ((exec step ;; run rest) s) in Hthrow.
  rewrite pass_bind_unfold in Hthrow.
  destruct (exec step s) as [[[] t]|e'] eqn:Hexec.
  - apply IH in Hthrow as (before & bias & a & after & s' & -> & Hrun & Hr).
    exists (step :: before), bias, a, after, s'. split_and!; [done| |done].
    by erewrite run_cons_Return.
  - injection Hthrow as ->. destruct step as [bias a|chr]; [|done].
    exists [], bias, a, rest, s. split_and!; [done|done|].
    cbn in Hexec. rewrite render_unfold in Hexec.
    destruct (renderAnnotation bias a (stack s)) as [[??]|?];
      [discriminate Hexec|by injection Hexec as ->].
Qed.

(** The requests of a pass are [open] and [close] requests. *)
Lemma program_bias data bias a :
  Request bias a ∈ program data → bias = "open" ∨ bias = "close".
Proof.
  assert (∀ left d, Request bias a ∈ script left d →
                    bias = "open" ∨ bias = "close") as Hscript.
  { intros left d. revert left.
    induction d as [|unit rest IH]; intros left; cbn [script].
    { by intros ?%elem_of_nil. }
    unfold difference.
    rewrite !elem_of_app, elem_of_cons, !list_elem_of_fmap.
    intros [[(x & [= -> _] & _)|(x & [= -> _] & _)]|[?|?]]; eauto; done. }
  unfold program. rewrite elem_of_app. intros [?|Hclosing]; [by eauto|].
  destruct (last data) as [unit|]; cbn [closing] in Hclosing.
  - apply list_elem_of_fmap in Hclosing as (x & [= -> _] & _). by right.
  - by apply elem_of_nil in Hclosing.
Qed.

(** What is already in [out] is left as it is. *)
Lemma exec_frame step o st :
  exec step {| out := o; stack := st |}
  = match exec step {| out := []; stack := st |} with
    | Return (_, s') =>
        Return (tt, {| out := o ++ out s'; stack := stack s' |})
    | Throw e => Throw e
    end.
Proof.
  destruct step as [bias a|chr]; [|done].
  cbn. rewrite !render_unfold. cbn.
  by destruct (renderAnnotation bias a st) as [[pieces st']|e].
Qed.

Lemma run_frame steps o st :
  run steps {| out := o; stack := st |}
  = match run steps {| out := []; stack := st |} with
    | Return (_, s') =>
        Return (tt, {| out := o ++ out s'; stack := stack s' |})
    | Throw e => Throw e
    end.
Proof.
  revert o st. induction steps as [|step rest IH]; intros o st.
  { cbn. by rewrite app_nil_r. }
  change (run (step :: rest) ?s) with ((exec step ;; run rest) s).
  rewrite !pass_bind_unfold, (exec_frame step o).
  destruct (exec step {| out := []; stack := st |}) as [[[] [o1 st1]]|e];
    [|done].
  cbn [out stack]. rewrite (IH (o ++ o1)), (IH o1).
  destruct (run rest {| out := []; stack := st1 |}) as [[[] [o2 st2]]|e];
    [|done].
  cbn. by rewrite app_assoc.
Qed.

Lemma script_app left d1 d2 :
  script left (d1 ++ d2)
  = script left d1 ++ script (default left (last d1)) d2.
Proof.
  revert left. induction d1 as [|unit rest IH]; intros left; [done|].
  cbn [app script]. rewrite IH, last_cons, <-!app_assoc. cbn.
  by destruct (last rest).
Qed.

(** The requests depend on the annotations of the units only. *)
Lemma difference_annotations left left' right right' :
  annotations_of left = annotations_of left' →
  annotations_of right = annotations_of right' →
  difference left right = difference left' right'.
Proof. unfold difference. by intros -> ->. Qed.

Lemma script_annotations left left' data :
  annotations_of left = annotations_of left' →
  script left data = script left' data.
Proof.
  intros Heq. destruct data as [|unit rest]; [done|].
  cbn [script]. by rewrite (difference_annotations left left' unit unit).
Qed.

Lemma closing_annotations unit unit' :
  annotations_of unit = annotations_of unit' →
  closing (Some unit) = closing (Some unit').
Proof. cbn. by intros ->. Qed.

(** Where one of two consecutive units has no annotations, the requests of
    the data are those of the part before followed by those of the part
    after. *)
Lemma program_app d1 d2 :
  annotations_of (default (Plain EmptyString) (last d1)) = []
  ∨ annotations_of (default (Plain EmptyString) (head d2)) = [] →
  program (d1 ++ d2) = program d1 ++ program d2.
Proof.
  intros Hplain. unfold program.
  destruct d2 as [|unit rest].
  { by rewrite !app_nil_r. }
  rewrite script_app, last_app_cons, <-!app_assoc. f_equal.
  cbn [script head default] in *.
  destruct (last d1) as [final|] eqn:Hlast; cbn [default closing] in *.
  2: { done. }
  change (id ?x) with x in *.
  rewrite !app_assoc. do 2 f_equal. unfold difference.
  destruct Hplain as [Hnone|Hnone]; rewrite Hnone; cbn [annotations_of].
  - by rewrite !filter_nil, !filter_not_elem_of_nil.
  - by rewrite !filter_nil, !filter_not_elem_of_nil, !app_nil_r.
Qed.

End Further.

(** ** Opening and closing in turn *)

(** X1.  Open requests for the annotations of a list followed by close
    requests for them in the reverse order leave the stack as it was,
    whatever it held: the output gains what the open requests append for
    the annotations of the list that the guard [type in renderers] admits,
    in order (the open markup of a renderer, [undefined] for an inherited
    name), then what the close requests append for them in the reverse
    order, and no annotation is closed to be opened again. *)
Theorem open_then_close_restores renderers heap l s :
  run renderers heap
    (map (Request "open") l ++ map (Request "close") (reverse l)) s
  = Return (tt, {| out := out s
                            ++ map (piece renderers heap Open open)
                                   (live renderers heap l)
                            ++ map (piece renderers heap Close close)
                                   (reverse (live renderers heap l));
                   stack := stack s |}).
Proof.
  erewrite run_app_Return by apply run_open_each.
  rewrite (run_close_reversed _ _ _ (stack s)).
  - cbn [out]. unfold live. by rewrite filter_reverse, <-app_assoc.
  - cbn [stack]. unfold live. by rewrite filter_reverse, reverse_involutive.
Qed.

(** ** The output of any call that returns *)

(** X2.  Whatever the data, when the pass returns its pieces are brackets
    that lead from no open tag to the stack the pass ends with: the tags
    still open are the annotations left on the stack, in the order of the
    stack, and every annotation has as many open markups as close markups
    and entries on that stack together; likewise for pushes and removals. *)
Theorem returned_output_is_nested renderers heap data s :
  pass renderers heap data = Return s →
  nest [] (out s) = Some (stack s)
  ∧ ∀ a,
      opens a (out s) = (closes a (out s) + occurrences a (stack s))%nat
      ∧ pushes a (out s)
        = (removals a (out s) + occurrences a (stack s))%nat.
Proof.
  intros Hrun%pass_Return_inv.
  assert (nest [] (out s) = Some (stack s)) as Hnest.
  { by apply (run_nest renderers heap [] (program data)
                {| out := []; stack := [] |}). }
  split; [done|]. intros a. split.
  - pose proof (nest_balance _ _ _ a Hnest) as Hbal.
    unfold occurrences in Hbal at 1. cbn in Hbal. lia.
  - by apply (run_pushes renderers heap a (program data)
                {| out := []; stack := [] |}).
Qed.

(** X2 on the units [[x, A, A]], [[<, A]], whose pass leaves [A] on the
    stack. *)
Lemma returned_output_is_nested_witness :
  pass annotationRenderers Sample.heap
    [Formatted "x" [Sample.A; Sample.A]; Formatted "<" [Sample.A]]
  = Return {| out := [(Open Sample.A, "<b>"); (Open Sample.A, "<b>");
                      (Text, "x"); (Text, "&lt;"); (Close Sample.A, "</b>")];
              stack := [Sample.A] |}
  ∧ nest [] [(Open Sample.A, "<b>"); (Open Sample.A, "<b>");
             (Text, "x"); (Text, "&lt;"); (Close Sample.A, "</b>")]
    = Some [Sample.A].
Proof.
  assert (pass annotationRenderers Sample.heap
            [Formatted "x" [Sample.A; Sample.A]; Formatted "<" [Sample.A]]
          = Return {| out := [(Open Sample.A, "<b>"); (Open Sample.A, "<b>");
                              (Text, "x"); (Text, "&lt;");
                              (Close Sample.A, "</b>")];
                      stack := [Sample.A] |}) as Hpass.
  { vm_compute. reflexivity. }
  split; [exact Hpass|].
  exact (proj1 (returned_output_is_nested _ _ _ _ Hpass)).
Defined.

(** ** When the call throws *)

(** X3.  The only thing [getHtml] throws is the invalid stack error, and it
    throws it only on reaching a close request for an annotation that the
    guard [type in renderers] admits and that is not on the stack. *)
Theorem abort_is_close_of_absent renderers heap normalize range data e :
  getHtml renderers heap normalize range data = Throw e →
  e = InvalidStackError
  ∧ ∃ before a after s,
      program data = before ++ Request "close" a :: after
      ∧ run renderers heap before {| out := []; stack := [] |} = Return (tt, s)
      ∧ registered renderers heap a
      ∧ a ∉ stack s.
Proof.
  rewrite getHtml_pass, pass_program.
  destruct (run _ _ (program data) _) as [[[] s]|e'] eqn:Hrun; [done|].
  intros [= ->].
  apply run_Throw_inv in Hrun
    as (before & bias & a & after & s' & Hprogram & Hbefore & Hthrow).
  apply renderAnnotation_Throw in Hthrow as (-> & Hbias & Hreg & Hnot).
  2: { by apply (run_registered _ _ before {| out := []; stack := [] |}). }
  split; [done|]. exists before, a, after, s'.
  destruct (program_bias data bias a) as [->| ->]; [|done|done].
  rewrite Hprogram. apply elem_of_app. right. by left.
Qed.

(** X3 on the units [[x, A]], [[<, A, A]]: the second close of [A]. *)
Lemma abort_is_close_of_absent_witness :
  getHtml annotationRenderers Sample.heap Sample.norm None
    [Formatted "x" [Sample.A]; Formatted "<" [Sample.A; Sample.A]]
  = Throw InvalidStackError
  ∧ ∃ before a after s,
      program [Formatted "x" [Sample.A]; Formatted "<" [Sample.A; Sample.A]]
      = before ++ Request "close" a :: after
      ∧ run annotationRenderers Sample.heap before {| out := []; stack := [] |}
        = Return (tt, s)
      ∧ registered annotationRenderers Sample.heap a
      ∧ a ∉ stack s.
Proof.
  assert (getHtml annotationRenderers Sample.heap Sample.norm None
            [Formatted "x" [Sample.A]; Formatted "<" [Sample.A; Sample.A]]
          = Throw InvalidStackError) as Hthrow.
  { vm_compute. reflexivity. }
  split; [exact Hthrow|].
  exact (proj2 (abort_is_close_of_absent _ _ _ _ _ _ Hthrow)).
Defined.

(** ** Units without annotations, units with the same annotations *)

Lemma annotations_of_bare unit : annotations_of (bare unit) = annotations_of unit.
Proof. by destruct unit as [chr|chr [|a l]]. Qed.

Lemma chr_of_bare unit : chr_of (bare unit) = chr_of unit.
Proof. by destruct unit as [chr|chr [|a l]]. Qed.

Lemma script_bare left data :
  script (bare left) (map bare data) = script left data.
Proof.
  revert left. induction data as [|unit rest IH]; intros left; [done|].
  cbn [map script]. rewrite IH, chr_of_bare.
  by rewrite (difference_annotations (bare left) left (bare unit) unit)
    by apply annotations_of_bare.
Qed.

Lemma program_bare data : program (map bare data) = program data.
Proof.
  unfold program.
  rewrite <-(script_bare (Plain EmptyString) data). f_equal.
  change (map bare data) with (bare <$> data). rewrite fmap_last.
  destruct (last data) as [unit|]; [|done].
  apply closing_annotations, annotations_of_bare.
Qed.

(** X4.  An array that holds a character and no annotation is rendered as
    the character: replacing such arrays by their characters, anywhere in
    the data, changes neither the pieces of the output nor the result. *)
Theorem array_of_character_is_plain renderers heap normalize range data :
  pass renderers heap (map bare data) = pass renderers heap data
  ∧ getHtml renderers heap normalize range (map bare data)
    = getHtml renderers heap normalize range data.
Proof.
  assert (pass renderers heap (map bare data) = pass renderers heap data)
    as Hpass by by rewrite !pass_program, program_bare.
  split; [done|]. by rewrite !getHtml_pass, Hpass.
Qed.

(** X5.  Between two units that carry the same annotations, in whatever
    order each lists them, no request is made: nothing is appended but the
    character, and the stack is not touched. *)
Theorem same_annotations_no_markup renderers heap left right s :
  (∀ a, a ∈ annotations_of left ↔ a ∈ annotations_of right) →
  difference left right = []
  ∧ transition renderers heap left right s = Return (tt, s).
Proof.
  intros Hsame.
  assert (difference left right = []) as Hdiff.
  { unfold difference. rewrite !filter_none; [done| |].
    - intros a Ha Hnot. apply Hnot. by apply Hsame.
    - intros a Ha Hnot. apply Hnot. by apply Hsame. }
  split; [done|]. by rewrite transition_difference, Hdiff.
Qed.

(** X5 on [[x, A, B]] and [[y, B, A]]. *)
Lemma same_annotations_no_markup_witness :
  (∀ a, a ∈ annotations_of (Formatted "x" [Sample.A; Sample.B])
        ↔ a ∈ annotations_of (Formatted "y" [Sample.B; Sample.A]))
  ∧ transition annotationRenderers Sample.heap
      (Formatted "x" [Sample.A; Sample.B]) (Formatted "y" [Sample.B; Sample.A])
      {| out := [(Open Sample.A, "<b>")]; stack := [Sample.A; Sample.B] |}
    = Return (tt, {| out := [(Open Sample.A, "<b>")];
                     stack := [Sample.A; Sample.B] |}).
Proof.
  assert (∀ a, a ∈ annotations_of (Formatted "x" [Sample.A; Sample.B])
               ↔ a ∈ annotations_of (Formatted "y" [Sample.B; Sample.A]))
    as Hsame.
  { intros a. cbn [annotations_of]. rewrite !elem_of_cons. tauto. }
  split; [exact Hsame|].
  exact (proj2 (same_annotations_no_markup annotationRenderers Sample.heap
                  _ _ _ Hsame)).
Defined.

Lemma script_uniform a chr chars :
  script (Formatted chr [a]) (map (λ c, Formatted c [a]) chars)
  = map Character chars.
Proof.
  revert chr. induction chars as [|c chars IH]; intros chr; [done|].
  cbn [map script chr_of]. rewrite IH. unfold difference. cbn [annotations_of].
  rewrite !filter_cons_False by (intros Hnot; apply Hnot; by left).
  by rewrite !filter_nil.
Qed.

Lemma run_characters renderers heap chars s :
  run renderers heap (map Character chars) s
  = Return (tt, {| out := out s ++ map (λ chr, (Text, escape chr)) chars;
                   stack := stack s |}).
Proof.
  revert s. induction chars as [|chr chars IH]; intros s.
  { cbn. destruct s. by rewrite app_nil_r. }
  cbn [map]. erewrite run_cons_Return by apply exec_character.
  rewrite IH. cbn. by rewrite <-app_assoc.
Qed.

(** X6.  Consecutive characters that carry one and the same registered
    annotation are rendered inside a single element: its open markup, the
    rendering of the characters, its close markup. *)
Theorem annotated_run_is_one_element renderers heap normalize range a
    chr chars :
  registered renderers heap a →
  getHtml renderers heap normalize range
    (map (λ c, Formatted c [a]) (chr :: chars))
  = Return (markupOf renderers heap open a
            +:+ foldr (λ c html, escape c +:+ html) EmptyString (chr :: chars)
            +:+ markupOf renderers heap close a)
  ∧ pass renderers heap (map (λ c, Formatted c [a]) (chr :: chars))
    = Return {| out := piece renderers heap Open open a
                       :: map (λ c, (Text, escape c)) (chr :: chars)
                       ++ [piece renderers heap Close close a];
                stack := [] |}.
Proof.
  intros Hreg.
  assert (pass renderers heap (map (λ c, Formatted c [a]) (chr :: chars))
    = Return {| out := piece renderers heap Open open a
                       :: map (λ c, (Text, escape c)) (chr :: chars)
                       ++ [piece renderers heap Close close a];
                stack := [] |}) as Hpass.
  { apply pass_Return. unfold program.
    assert (closing (last (map (λ c, Formatted c [a]) (chr :: chars)))
            = [Request "close" a]) as ->.
    { change (map ?f ?l) with (f <$> l). rewrite fmap_last, last_cons.
      by destruct (last chars). }
    cbn [map script chr_of]. rewrite script_uniform.
    unfold difference. cbn [annotations_of]. filters. cbn [map app].
    run_open. run_character.
    erewrite run_app_Return by apply run_characters. cbn [out stack].
    run_close (@nil ref) (@nil ref). done. }
  split; [|done].
  rewrite getHtml_pass, Hpass. f_equal. cbn [out].
  change (piece renderers heap Open open a :: ?l)
    with ([piece renderers heap Open open a] ++ l).
  rewrite !flatten_app, flatten_text. cbn. by rewrite !append_empty.
Qed.

(** X6 on three characters in bold, one of them with an entity. *)
Lemma annotated_run_is_one_element_witness :
  registered annotationRenderers Sample.heap Sample.A
  ∧ getHtml annotationRenderers Sample.heap Sample.norm None
      [Formatted "a" [Sample.A]; Formatted "<" [Sample.A];
       Formatted "b" [Sample.A]]
    = Return "<b>a&lt;b</b>".
Proof.
  assert (registered annotationRenderers Sample.heap Sample.A) as Hreg.
  { vm_compute. eexists. reflexivity. }
  split; [exact Hreg|].
  refine (eq_trans (proj1 (annotated_run_is_one_element annotationRenderers
                             Sample.heap Sample.norm None Sample.A
                             "a" ["<"; "b"] Hreg)) _).
  vm_compute. reflexivity.
Defined.

(** ** The stack during a pass over distinct units *)

(** X7.  When no unit lists an annotation twice, the pass comes through
    every unit, and once the character of a unit is rendered the stack
    holds the annotations of that unit that the guard [type in renderers]
    admits, each one once, and nothing else. *)
Theorem stack_follows_annotations renderers heap before unit after :
  distinct (before ++ unit :: after) →
  ∃ s rest,
    loop renderers heap (Plain EmptyString) (before ++ [unit])
      {| out := []; stack := [] |}
    = Return (tt, s)
    ∧ program (before ++ unit :: after)
      = script (Plain EmptyString) (before ++ [unit]) ++ rest
    ∧ NoDup (stack s)
    ∧ ∀ a, a ∈ stack s
           ↔ a ∈ annotations_of unit ∧ registered renderers heap a.
Proof.
  intros Hd.
  assert (distinct (before ++ [unit])) as Hprefix.
  { apply Forall_app in Hd as [? [? _]%Forall_cons].
    apply Forall_app. split; [done|]. by constructor. }
  destruct (script_carries renderers heap (before ++ [unit])
              (Plain EmptyString) {| out := []; stack := [] |})
    as (s & Hrun & Hc); try done.
  { split; [constructor|]. intros x. cbn.
    split; [by intros ?%elem_of_nil|by intros [?%elem_of_nil _]]. }
  { constructor. }
  rewrite last_snoc in Hc. cbn [default] in Hc. destruct Hc as [Hnodup Hc].
  exists s. eexists. split_and!; [by rewrite loop_script| |done|done].
  unfold program. rewrite (cons_middle unit before after), app_assoc.
  rewrite script_app, <-app_assoc. done.
Qed.

(** X7 on the units [[x, A]], [[y, A, B]], [[z, B]], at the second one. *)
Lemma stack_follows_annotations_witness :
  distinct ([Formatted "x" [Sample.A]]
              ++ Formatted "y" [Sample.A; Sample.B]
              :: [Formatted "z" [Sample.B]])
  ∧ ∃ s rest,
      loop annotationRenderers Sample.heap (Plain EmptyString)
        ([Formatted "x" [Sample.A]] ++ [Formatted "y" [Sample.A; Sample.B]])
        {| out := []; stack := [] |}
      = Return (tt, s)
      ∧ program ([Formatted "x" [Sample.A]]
                   ++ Formatted "y" [Sample.A; Sample.B]
                   :: [Formatted "z" [Sample.B]])
        = script (Plain EmptyString)
            ([Formatted "x" [Sample.A]]
               ++ [Formatted "y" [Sample.A; Sample.B]])
          ++ rest
      ∧ NoDup (stack s)
      ∧ ∀ a, a ∈ stack s
             ↔ a ∈ annotations_of (Formatted "y" [Sample.A; Sample.B])
               ∧ registered annotationRenderers Sample.heap a.
Proof.
  assert (distinct ([Formatted "x" [Sample.A]]
                      ++ Formatted "y" [Sample.A; Sample.B]
                      :: [Formatted "z" [Sample.B]])) as Hd.
  { apply (bool_decide_unpack
             (Forall (λ unit, NoDup (annotations_of unit))
                [Formatted "x" [Sample.A];
                 Formatted "y" [Sample.A; Sample.B];
                 Formatted "z" [Sample.B]])).
    vm_compute. exact I. }
  split; [exact Hd|].
  exact (stack_follows_annotations annotationRenderers Sample.heap _ _ _ Hd).
Defined.

(** ** Rendering in parts *)

(** X8.  Where one of two consecutive units has no annotations, and the
    pass over the data up to there returns with an empty stack, the data
    is rendered as the part before followed by the part after: the result
    is the concatenation of the two results, and the call throws when the
    part after does. *)
Theorem rendering_splits_at_plain renderers heap normalize range d1 d2 s1 :
  pass renderers heap d1 = Return s1 →
  stack s1 = [] →
  annotations_of (default (Plain EmptyString) (last d1)) = []
  ∨ annotations_of (default (Plain EmptyString) (head d2)) = [] →
  getHtml renderers heap normalize range d1 = Return (flatten (out s1))
  ∧ getHtml renderers heap normalize range (d1 ++ d2)
    = match getHtml renderers heap normalize range d2 with
      | Return html => Return (flatten (out s1) +:+ html)
      | Throw e => Throw e
      end.
Proof.
  intros Hpass Hempty Hplain.
  split; [by rewrite getHtml_pass, Hpass|].
  rewrite !getHtml_pass, !pass_program, program_app by done.
  erewrite run_app_Return by by apply pass_Return_inv.
  destruct s1 as [o1 st1]. cbn in Hempty. subst st1.
  rewrite run_frame.
  destruct (run _ _ (program d2) _) as [[[] s2]|e]; [|done].
  cbn [out]. by rewrite flatten_app.
Qed.

(** X8 on [[x, A]] followed by the character [y] and [[z, B]]. *)
Lemma rendering_splits_at_plain_witness :
  pass annotationRenderers Sample.heap [Formatted "x" [Sample.A]]
  = Return {| out := [(Open Sample.A, "<b>"); (Text, "x");
                      (Close Sample.A, "</b>")];
              stack := [] |}
  ∧ getHtml annotationRenderers Sample.heap Sample.norm None
      ([Formatted "x" [Sample.A]] ++ [Plain "y"; Formatted "z" [Sample.B]])
    = match getHtml annotationRenderers Sample.heap Sample.norm None
              [Plain "y"; Formatted "z" [Sample.B]] with
      | Return html => Return ("<b>x</b>" +:+ html)
      | Throw e => Throw e
      end.
Proof.
  assert (pass annotationRenderers Sample.heap [Formatted "x" [Sample.A]]
          = Return {| out := [(Open Sample.A, "<b>"); (Text, "x");
                              (Close Sample.A, "</b>")];
                      stack := [] |}) as Hpass.
  { vm_compute. reflexivity. }
  split; [exact Hpass|].
  exact (proj2 (rendering_splits_at_plain annotationRenderers Sample.heap
                  Sample.norm None _ [Plain "y"; Formatted "z" [Sample.B]] _
                  Hpass eq_refl (or_intror eq_refl))).
Defined.

(** ** The cost of a close request *)

(** X9.  A close request for a registered annotation that returns takes
    one occurrence of the annotation off the stack and leaves every other
    entry; it appends fewer than twice as many pieces as the stack had
    entries. *)
Theorem close_request_cost renderers heap a stack pieces stack' :
  registered renderers heap a →
  renderAnnotation renderers heap "close" a stack = Return (pieces, stack') →
  S (length stack') = length stack
  ∧ (length pieces < 2 * length stack)%nat
  ∧ ∀ b, occurrences b stack
         = (occurrences b stack' + if decide (a = b) then 1 else 0)%nat.
Proof.
  intros Hreg Hret%renderAnnotation_Return.
  inversion Hret as [? ? ? Hnone | | ? ? below above _ _ _]; subst.
  { destruct Hreg as [rule Hrule]. cbn in Hrule. congruence. }
  split_and!.
  - rewrite !length_app. cbn. lia.
  - rewrite !length_app. cbn. rewrite !length_map, length_reverse. lia.
  - intros b. rewrite !occurrences_app, occurrences_cons.
    case_decide; lia.
Qed.

(** X9 on [A] under [B]. *)
Lemma close_request_cost_witness :
  registered annotationRenderers Sample.heap Sample.A
  ∧ renderAnnotation annotationRenderers Sample.heap "close" Sample.A
      [Sample.A; Sample.B]
    = Return ([(Suspend Sample.B, "</i>"); (Close Sample.A, "</b>");
               (Resume Sample.B, "<i>")], [Sample.B])
  ∧ (length [(Suspend Sample.B, "</i>"); (Close Sample.A, "</b>");
             (Resume Sample.B, "<i>")]
     < 2 * length [Sample.A; Sample.B])%nat.
Proof.
  assert (registered annotationRenderers Sample.heap Sample.A) as Hreg.
  { vm_compute. eexists. reflexivity. }
  assert (renderAnnotation annotationRenderers Sample.heap "close" Sample.A
            [Sample.A; Sample.B]
          = Return ([(Suspend Sample.B, "</i>"); (Close Sample.A, "</b>");
                     (Resume Sample.B, "<i>")], [Sample.B])) as Hret.
  { vm_compute. reflexivity. }
  split_and!; [exact Hreg|exact Hret|].
  exact (proj1 (proj2 (close_request_cost _ _ _ _ _ _ Hreg Hret))).
Defined.

(** ** The two tables *)

(** X10.  The rendering of a one-character string other than the newline
    and the tab holds none of the characters that delimit tags and
    attribute values: text cannot open or close a tag. *)
Theorem text_has_no_delimiter (c d : Ascii.ascii) :
  String c EmptyString ≠ newline →
  String c EmptyString ≠ tab →
  d ∈ delimiters →
  d ∉ chars_of (escape (String c EmptyString)).
Proof.
  intros Hnewline Htab Hd.
  assert (Forall (λ n,
            String (Ascii.ascii_of_nat n) EmptyString = newline
            ∨ String (Ascii.ascii_of_nat n) EmptyString = tab
            ∨ Forall (.∉ delimiters)
                (chars_of (escape (String (Ascii.ascii_of_nat n) EmptyString))))
            (seq 0 256)) as Hall.
  { apply (bool_decide_unpack _). vm_compute. exact I. }
  rewrite Forall_forall in Hall.
  specialize (Hall (Ascii.nat_of_ascii c)).
  rewrite Ascii.ascii_nat_embedding in Hall.
  destruct Hall as [?|[?|Hsafe]]; [|done|done|].
  { apply elem_of_seq. pose proof (Ascii.nat_ascii_bounded c). lia. }
  intros Hin. by eapply Forall_forall in Hsafe.
Qed.

(** X10 on the character [<]. *)
Lemma text_has_no_delimiter_witness :
  String (Ascii.ascii_of_nat 60) EmptyString ≠ newline
  ∧ String (Ascii.ascii_of_nat 60) EmptyString ≠ tab
  ∧ Ascii.ascii_of_nat 60 ∈ delimiters
  ∧ Ascii.ascii_of_nat 60
    ∉ chars_of (escape (String (Ascii.ascii_of_nat 60) EmptyString)).
Proof.
  assert (String (Ascii.ascii_of_nat 60) EmptyString ≠ newline) as Hn
    by discriminate.
  assert (String (Ascii.ascii_of_nat 60) EmptyString ≠ tab) as Ht
    by discriminate.
  assert (Ascii.ascii_of_nat 60 ∈ delimiters) as Hd by (by left).
  split_and!; [exact Hn|exact Ht|exact Hd|].
  exact (text_has_no_delimiter _ _ Hn Ht Hd).
Defined.

(** X11.  Every renderer of the table opens and closes one and the same
    element, [b], [i] or [span], whatever the data of the annotation: its
    open markup starts with the open tag of the element and its close
    markup is the close tag of that element. *)
Theorem renderers_tags_match ty rule d :
  annotationRenderers !! ty = Some rule →
  ∃ name,
    name ∈ elements
    ∧ String.prefix ("<" +:+ name) (markup (open rule) d) = true
    ∧ markup (close rule) d = "</" +:+ name +:+ ">".
Proof.
  intros Hrule. unfold annotationRenderers in Hrule.
  apply elem_of_list_to_map_2 in Hrule.
  repeat (apply elem_of_cons in Hrule as [[= -> ->]|Hrule];
    [first [ by exists "b"; split_and!; [set_solver|reflexivity|reflexivity]
           | by exists "i"; split_and!; [set_solver|reflexivity|reflexivity]
           | by exists "span"; split_and!; [set_solver|reflexivity|reflexivity] ]
    |]).
  by apply elem_of_nil in Hrule.
Qed.

(** X11 on the renderer of external links, for data without [href]. *)
Lemma renderers_tags_match_witness :
  ∃ rule,
    annotationRenderers !! "link/external" = Some rule
    ∧ ∃ name,
        name ∈ elements
        ∧ String.prefix ("<" +:+ name) (markup (open rule) ∅) = true
        ∧ markup (close rule) ∅ = "</" +:+ name +:+ ">".
Proof.
  destruct (annotationRenderers !! "link/external") as [rule|] eqn:Hrule.
  - exists rule. split; [reflexivity|].
    exact (renderers_tags_match "link/external" rule ∅ Hrule).
  - vm_compute in Hrule. discriminate Hrule.
Defined.

(** ** Data without an annotation that the guard admits *)

(** The requests of a pass are for annotations of its units. *)
Lemma program_requests data bias a :
  Request bias a ∈ program data →
  ∃ unit, unit ∈ data ∧ a ∈ annotations_of unit.
Proof.
  assert (∀ left d, Request bias a ∈ script left d →
            a ∈ annotations_of left
            ∨ ∃ unit, unit ∈ d ∧ a ∈ annotations_of unit) as Hscript.
  { intros left d. revert left.
    induction d as [|unit rest IH]; intros left; cbn [script].
    { by intros ?%elem_of_nil. }
    unfold difference.
    rewrite !elem_of_app, elem_of_cons, !list_elem_of_fmap.
    intros [[(x & [= _ ->] & [_ Hx]%list_elem_of_filter)
            |(x & [= _ ->] & [_ Hx]%list_elem_of_filter)]
           |[?|Hrest]]; [by left| |done|].
    - right. exists unit. split; [by left|done].
    - right. apply IH in Hrest as [?|(u & ? & ?)].
      + exists unit. split; [by left|done].
      + exists u. split; [by right|done]. }
  unfold program. rewrite elem_of_app. intros [Hs|Hclosing].
  - apply Hscript in Hs as [Hnil|?]; [|done]. by apply elem_of_nil in Hnil.
  - destruct (last data) as [unit|] eqn:Hlast; cbn [closing] in Hclosing.
    + apply list_elem_of_fmap in Hclosing as (x & [= _ ->] & Hx).
      exists unit. split; [by apply last_Some_elem_of|done].
    + by apply elem_of_nil in Hclosing.
Qed.

(** Requests for annotations that the guard does not admit only: the run
    renders the characters. *)
Lemma run_silent renderers heap steps s :
  (∀ bias a, Request bias a ∈ steps → member renderers (type (heap a)) = None) →
  run renderers heap steps s
  = Return (tt, {| out := out s
                            ++ map (λ chr, (Text, escape chr))
                                   (characters steps);
                   stack := stack s |}).
Proof.
  revert s. induction steps as [|step rest IH]; intros s Hnone.
  { cbn. destruct s. by rewrite app_nil_r. }
  assert (∀ bias a, Request bias a ∈ rest → member renderers (type (heap a)) = None)
    as Hrest by (intros bias a ?; apply (Hnone bias); by right).
  destruct step as [bias a|chr].
  - erewrite run_cons_Return.
    2: { cbn. apply render_unregistered. apply (Hnone bias). by left. }
    by rewrite IH.
  - erewrite run_cons_Return by apply exec_character.
    rewrite IH by done. cbn. by rewrite <-app_assoc.
Qed.

(** X12.  When the guard [type in renderers] admits no annotation of the
    data, the call returns the concatenation of the renderings of the
    characters of the units, annotated or not, and nothing else. *)
Theorem unregistered_data_is_text renderers heap normalize range data :
  (∀ unit a,
     unit ∈ data → a ∈ annotations_of unit →
     member renderers (type (heap a)) = None) →
  getHtml renderers heap normalize range data
  = Return (foldr (λ chr html, escape chr +:+ html) EmptyString
              (map chr_of data)).
Proof.
  intros Hnone. rewrite getHtml_pass, pass_program, run_silent.
  - cbn. by rewrite characters_program, flatten_text.
  - intros bias a (unit & Hunit & Ha)%program_requests. by eapply Hnone.
Qed.

(** X12 on two characters in a style that is unknown. *)
Lemma unregistered_data_is_text_witness :
  (∀ unit a,
     unit ∈ [Formatted "&" [Sample.U]; Formatted "z" [Sample.U]] →
     a ∈ annotations_of unit →
     member annotationRenderers (type (Sample.heap a)) = None)
  ∧ getHtml annotationRenderers Sample.heap Sample.norm None
      [Formatted "&" [Sample.U]; Formatted "z" [Sample.U]]
    = Return "&amp;z".
Proof.
  assert (∀ unit a,
            unit ∈ [Formatted "&" [Sample.U]; Formatted "z" [Sample.U]] →
            a ∈ annotations_of unit →
            member annotationRenderers (type (Sample.heap a)) = None)
    as Hnone.
  { intros unit a Hunit Ha.
    assert (a = Sample.U) as ->; [|vm_compute; reflexivity].
    repeat (apply elem_of_cons in Hunit as [->|Hunit];
      [cbn in Ha; by apply list_elem_of_singleton in Ha|]).
    by apply elem_of_nil in Hunit. }
  split; [exact Hnone|].
  refine (eq_trans (unregistered_data_is_text annotationRenderers Sample.heap
                      Sample.norm None _ Hnone) _).
  vm_compute. reflexivity.
Defined.

(** ** The data of the annotations *)

Lemma origins_app p1 p2 : origins (p1 ++ p2) = origins p1 ++ origins p2.
Proof. apply map_app. Qed.

Lemma origins_piece renderers heap origin side l :
  origins (map (piece renderers heap origin side) l) = map origin l.
Proof. unfold origins. rewrite map_map. done. Qed.

Section Payload.

Variable renderers : gmap string RenderRule.
Variables heap heap' : ref → Annotation.
Hypothesis same_types : ∀ a, type (heap a) = type (heap' a).

Lemma registered_payload a :
  registered renderers heap a ↔ registered renderers heap' a.
Proof. unfold registered. by rewrite same_types. Qed.

Lemma Forall_registered_payload l :
  Forall (registered renderers heap) l ↔ Forall (registered renderers heap') l.
Proof.
  rewrite !Forall_forall. split; intros H a Ha; apply registered_payload; eauto.
Qed.

(** With other data in the annotations a request has the same outcome but
    for the strings. *)
Lemma renderAnnotation_payload bias a stack :
  match renderAnnotation renderers heap bias a stack,
        renderAnnotation renderers heap' bias a stack with
  | Return (pieces, stack1), Return (pieces', stack1') =>
      origins pieces = origins pieces' ∧ stack1 = stack1'
  | Throw e, Throw e' => e = e'
  | _, _ => False
  end.
Proof.
  destruct (member renderers (type (heap a))) as [rule|] eqn:Hrule.
  2: { rewrite !renderAnnotation_unregistered; [done| |done].
       by rewrite <-same_types. }
  assert (registered renderers heap a) as Hreg by by exists rule.
  assert (registered renderers heap' a) as Hreg'
    by by apply registered_payload.
  destruct (decide (bias = "open")) as [->|Hbias].
  { by rewrite !renderAnnotation_open. }
  destruct (decide (last stack = Some a)) as [Htop|Htop].
  { apply last_Some in Htop as [below ->].
    by rewrite !renderAnnotation_close_top. }
  destruct (decide (a ∈ stack)) as [Hin|Hnot].
  2: { by rewrite !renderAnnotation_close_absent. }
  apply list_elem_of_split_l in Hin as (below & above & -> & Hbelow).
  rewrite !renderAnnotation_close_buried by done.
  destruct (decide (Forall (registered renderers heap) above)) as [Hall|Hall].
  - rewrite decide_True by by apply Forall_registered_payload.
    split; [|done]. unfold origins. rewrite !map_app. cbn [map].
    fold (origins (map (piece renderers heap Suspend close) (reverse above))).
    fold (origins (map (piece renderers heap' Suspend close) (reverse above))).
    fold (origins (map (piece renderers heap Resume open) above)).
    fold (origins (map (piece renderers heap' Resume open) above)).
    by rewrite !origins_piece.
  - rewrite decide_False; [done|]. by rewrite <-Forall_registered_payload.
Qed.

Lemma run_payload steps s s' :
  stack s = stack s' →
  origins (out s) = origins (out s') →
  match run renderers heap steps s, run renderers heap' steps s' with
  | Return (_, t), Return (_, t') =>
      origins (out t) = origins (out t') ∧ stack t = stack t'
  | Throw e, Throw e' => e = e'
  | _, _ => False
  end.
Proof.
  revert s s'. induction steps as [|step rest IH]; intros s s' Hstack Hout.
  { done. }
  change (run ?r ?h (step :: rest) ?x)
    with ((exec r h step ;; run r h rest) x).
  rewrite !pass_bind_unfold. destruct step as [bias a|chr].
  - cbn [exec]. rewrite !render_unfold, <-Hstack.
    pose proof (renderAnnotation_payload bias a (stack s)) as Hone.
    destruct (renderAnnotation renderers heap bias a (stack s))
      as [[pieces st]|e],
      (renderAnnotation renderers heap' bias a (stack s))
      as [[pieces' st']|e']; try done.
    destruct Hone as [Hpieces ->]. apply IH; [done|].
    cbn [out]. by rewrite !origins_app, Hout, Hpieces.
  - cbn [exec emit]. apply IH; [done|].
    cbn [out]. by rewrite !origins_app, Hout.
Qed.

End Payload.

(** X13.  The data of the annotations bears on the strings of the markup
    only: with other data in the same annotations of the same types, the
    call throws or returns as before, and when it returns the pieces of
    its output come from the same statements for the same annotations, in
    the same order, and the stack ends the same. *)
Theorem payload_changes_strings_only renderers heap heap' normalize range data :
  (∀ a, type (heap a) = type (heap' a)) →
  (∀ s,
     pass renderers heap data = Return s →
     ∃ s', pass renderers heap' data = Return s'
           ∧ origins (out s') = origins (out s)
           ∧ stack s' = stack s)
  ∧ (∀ e,
       getHtml renderers heap normalize range data = Throw e →
       getHtml renderers heap' normalize range data = Throw e).
Proof.
  intros Htypes.
  pose proof (run_payload renderers heap heap' Htypes (program data)
                {| out := []; stack := [] |} {| out := []; stack := [] |}
                eq_refl eq_refl) as Hrun.
  split.
  - intros s Hs%pass_Return_inv. rewrite Hs in Hrun.
    destruct (run renderers heap' (program data) _) as [[[] s']|e] eqn:Hs';
      [|done].
    exists s'. destruct Hrun as [-> ->]. split; [|done].
    by apply pass_Return.
  - intros e. rewrite !getHtml_pass, !pass_program.
    destruct (run renderers heap (program data) _) as [[[] s]|e1];
      [done|].
    destruct (run renderers heap' (program data) _) as [[[] s']|e2];
      [done|].
    by rewrite Hrun.
Qed.

(** X13 on a link under a bold character, with two targets of the link. *)
Lemma payload_changes_strings_only_witness :
  (∀ a, type (Sample.heap a) = type (Sample.heap' a))
  ∧ ∃ s',
      pass annotationRenderers Sample.heap'
        [Formatted "x" [Sample.A; Sample.L]; Formatted "y" [Sample.L]]
      = Return s'
      ∧ origins (out s')
        = [Open Sample.A; Open Sample.L; Text; Suspend Sample.L;
           Close Sample.A; Resume Sample.L; Text; Close Sample.L]
      ∧ stack s' = [].
Proof.
  assert (∀ a, type (Sample.heap a) = type (Sample.heap' a)) as Htypes.
  { intros a. do 5 (destruct a as [|a]; [reflexivity|]). reflexivity. }
  split; [exact Htypes|].
  destruct (payload_changes_strings_only annotationRenderers Sample.heap
              Sample.heap' Sample.norm None
              [Formatted "x" [Sample.A; Sample.L]; Formatted "y" [Sample.L]]
              Htypes) as [Hreturn _].
  destruct (pass annotationRenderers Sample.heap
              [Formatted "x" [Sample.A; Sample.L]; Formatted "y" [Sample.L]])
    as [s|e] eqn:Hs.
  - destruct (Hreturn s eq_refl) as (s' & Hs' & Horigins & Hstack).
    exists s'. split_and!; [exact Hs'| |].
    + rewrite Horigins. vm_compute in Hs. injection Hs as <-. reflexivity.
    + rewrite Hstack. vm_compute in Hs. injection Hs as <-. reflexivity.
  - vm_compute in Hs. discriminate Hs.
Defined.
